(** * bezier-easing: cubic Bézier easing functions (src/index.js)

    A shallow embedding of [src/index.js] and the properties of its
    specification.

    JavaScript numbers are modelled through an interface [Number]: the
    arithmetic and comparison operators the source uses, the value of a
    numeric literal, and the rounding done by a store into a [Float32Array].
    The program is written once over that interface and run on two instances:

    - [float_Number]: IEEE 754 binary64 (Rocq's primitive floats), what a
      JavaScript engine computes, with binary32 rounding for [Float32Array];
    - [Qc_Number]: exact rational arithmetic, the "real number" reading of the
      specification, where no rounding happens.

    Theorems proved for every instance of the interface use nothing about the
    arithmetic, so they hold for both. What is claimed of the program is
    proved for every instance or for binary64; a statement proved in exact
    arithmetic only says so and is supplementary: the exact instance has no
    rounding, overflow, [NaN] or signed zero, so it is easier than the
    program. *)

From Stdlib Require Import String.
From Stdlib Require Import ZArith QArith Qcanon Qcabs List Bool Lia Lqa.
From Stdlib Require Import PrimFloat FloatOps SpecFloat Uint63.
From Stdlib Require FloatAxioms.
From Equations Require Import Equations.
Import ListNotations.

(* ------------------------------------------------------------------ *)
(** ** Numbers *)

Declare Scope num_scope.
Delimit Scope num_scope with num.

Class Number (F : Type) : Type := {
  lit : Q -> F;            (* the value of a numeric literal *)
  add : F -> F -> F;
  sub : F -> F -> F;
  mul : F -> F -> F;
  div : F -> F -> F;
  abs : F -> F;            (* Math.abs *)
  leb : F -> F -> bool;    (* a <= b *)
  ltb : F -> F -> bool;    (* a < b *)
  eqb : F -> F -> bool;    (* a === b *)
  fround : F -> F          (* the value read back after a Float32Array store *)
}.
Arguments lit {F _} q%_Q.

Infix "+" := add : num_scope.
Infix "-" := sub : num_scope.
Infix "*" := mul : num_scope.
Infix "/" := div : num_scope.
Notation "a <=? b" := (leb a b) : num_scope.
Notation "a >=? b" := (leb b a) (only parsing) : num_scope.
Notation "a >? b" := (ltb b a) : num_scope.
Notation "a === b" := (eqb a b) (at level 70, no associativity) : num_scope.
Notation "a !== b" := (negb (eqb a b)) (at level 70, no associativity) : num_scope.

(** The facts about [0] and [1] that the endpoint handling relies on. *)
Class NumberLaws (F : Type) {NF : Number F} : Prop := {
  eqb_0_0 : eqb (lit 0) (lit 0) = true;
  eqb_1_0 : eqb (lit 1) (lit 0) = false;
  eqb_1_1 : eqb (lit 1) (lit 1) = true
}.

(** *** IEEE 754 binary64 *)

Definition float_of_Z (z : Z) : float :=
  match z with
  | Z0 => PrimFloat.zero
  | Zpos _ => PrimFloat.of_uint63 (Uint63.of_Z z)
  | Zneg p => PrimFloat.opp (PrimFloat.of_uint63 (Uint63.of_Z (Zpos p)))
  end.

(** A literal [n/d] with [n], [d] below [2^53] is the correctly rounded
    quotient, which is also what the decimal literal denotes. *)
Definition float_lit (q : Q) : float :=
  PrimFloat.div (float_of_Z (Qnum q)) (float_of_Z (Zpos (Qden q))).

(** Rounding to binary32 (24 bits of precision, [emax = 128]), round to
    nearest even: the value a [Float32Array] element holds after a store. *)
Definition float_fround (x : float) : float :=
  match Prim2SF x with
  | S754_finite s m e => SF2Prim (binary_round 24 128 s m e)
  | _ => x
  end.

#[export] Instance float_Number : Number float := {|
  lit := float_lit;
  add := PrimFloat.add;
  sub := PrimFloat.sub;
  mul := PrimFloat.mul;
  div := PrimFloat.div;
  abs := PrimFloat.abs;
  leb := PrimFloat.leb;
  ltb := PrimFloat.ltb;
  eqb := PrimFloat.eqb;
  fround := float_fround
|}.

(** *** Exact rationals

    Canonical rationals, so that equal numbers are equal terms. Division by
    zero gives [0] here, where JavaScript gives an infinity or [NaN]: the
    program divides by a slope it has tested not to be zero, and by the
    difference of two neighbouring samples, which is positive for control
    points in [[0,1]] ([exact_sample_increasing]).

    This instance is an idealisation of the program's arithmetic, not the
    arithmetic itself: a result proved for it alone does not carry over to
    binary64. *)

Definition Qc_leb (a b : Qc) : bool := Qle_bool a b.
Definition Qc_ltb (a b : Qc) : bool := negb (Qle_bool b a).

#[export] Instance Qc_Number : Number Qc := {|
  lit := Q2Qc;
  add := Qcplus;
  sub := Qcminus;
  mul := Qcmult;
  div := Qcdiv;
  abs := Qcabs;
  leb := Qc_leb;
  ltb := Qc_ltb;
  eqb := Qc_eq_bool;
  fround := fun x => x
|}.

(* ------------------------------------------------------------------ *)
(** ** The program *)

(** A completed call: a returned value or a thrown [Error]. *)
Inductive Completion (T : Type) : Type :=
| Normal (v : T)
| Throw (message : string).
Arguments Normal {T} v.
Arguments Throw {T} message.

Section Program.

Context {F : Type} {NF : Number F}.

(** [typeof Float32Array === 'function'], a property of the host. *)
Variable float32ArraySupported : bool.

Local Open Scope num_scope.

Definition NEWTON_ITERATIONS : nat := 4.
Definition NEWTON_MIN_SLOPE : F := lit 0.001.
Definition SUBDIVISION_PRECISION : F := lit 0.0000001.
Definition SUBDIVISION_MAX_ITERATIONS : nat := 10.

Definition kSplineTableSize : nat := 11.

(** An integer-valued number: a loop counter or a size used in arithmetic. *)
Definition of_nat (n : nat) : F := lit (inject_Z (Z.of_nat n)).

Definition kSampleStepSize : F := lit 1.0 / (of_nat kSplineTableSize - lit 1.0).

Definition A (aA1 aA2 : F) : F := lit 1.0 - lit 3.0 * aA2 + lit 3.0 * aA1.
Definition B (aA1 aA2 : F) : F := lit 3.0 * aA2 - lit 6.0 * aA1.
Definition C (aA1 : F) : F := lit 3.0 * aA1.

Definition calcBezier (aT aA1 aA2 : F) : F :=
  ((A aA1 aA2 * aT + B aA1 aA2) * aT + C aA1) * aT.

Definition getSlope (aT aA1 aA2 : F) : F :=
  lit 3.0 * A aA1 aA2 * aT * aT + lit 2.0 * B aA1 aA2 * aT + C aA1.

(** *** binarySubdivide

    The state of the do-while loop at the head of an iteration is
    [(aA, aB, i)]; the loop is left with [(currentT, i)]. *)

Equations binarySubdivide_loop (aX mX1 mX2 aA aB : F) (i : nat) : F * nat
  by wf (SUBDIVISION_MAX_ITERATIONS - i)%nat lt :=
binarySubdivide_loop aX mX1 mX2 aA aB i :=
  let currentT := aA + (aB - aA) / lit 2.0 in
  let currentX := calcBezier currentT mX1 mX2 - aX in
  let aB' := if currentX >? lit 0.0 then currentT else aB in
  let aA' := if currentX >? lit 0.0 then aA else currentT in
  if abs currentX >? SUBDIVISION_PRECISION then
    match lt_dec (S i) SUBDIVISION_MAX_ITERATIONS with
    | left _ => binarySubdivide_loop aX mX1 mX2 aA' aB' (S i)
    | right _ => (currentT, S i)
    end
  else (currentT, i).
Next Obligation.
  change (SUBDIVISION_MAX_ITERATIONS - S i < SUBDIVISION_MAX_ITERATIONS - i)%nat.
  lia.
Qed.

Definition binarySubdivide (aX aA aB mX1 mX2 : F) : F :=
  fst (binarySubdivide_loop aX mX1 mX2 aA aB 0).

(** *** newtonRaphsonIterate

    The state of the for loop is [(aGuessT, i)]. *)

Equations newtonRaphsonIterate_loop (aX mX1 mX2 aGuessT : F) (i : nat) : F * nat
  by wf (NEWTON_ITERATIONS - i)%nat lt :=
newtonRaphsonIterate_loop aX mX1 mX2 aGuessT i :=
  match lt_dec i NEWTON_ITERATIONS with
  | left _ =>
      let currentSlope := getSlope aGuessT mX1 mX2 in
      if currentSlope === lit 0.0 then (aGuessT, i)
      else
        let currentX := calcBezier aGuessT mX1 mX2 - aX in
        newtonRaphsonIterate_loop aX mX1 mX2 (aGuessT - currentX / currentSlope) (S i)
  | right _ => (aGuessT, i)
  end.
Next Obligation.
  change (NEWTON_ITERATIONS - S i < NEWTON_ITERATIONS - i)%nat.
  lia.
Qed.

Definition newtonRaphsonIterate (aX aGuessT mX1 mX2 : F) : F :=
  fst (newtonRaphsonIterate_loop aX mX1 mX2 aGuessT 0).

(** *** The sample table

    [sampleValues] is a [Float32Array] when the host has one and an [Array]
    otherwise. Both are modelled as lists of elements that are a number or
    [undefined] ([None]): a new [Float32Array] holds zeros and rounds what is
    stored, a new [Array] holds only holes. *)

Definition SampleArray : Type := list (option F).

Definition new_sampleValues (size : nat) : SampleArray :=
  repeat (if float32ArraySupported then Some (lit 0) else None) size.

(** [a[i]]: [undefined] outside the array. *)
Definition array_get (a : SampleArray) (i : Z) : option F :=
  if (i <? 0)%Z then None
  else match nth_error a (Z.to_nat i) with
       | Some e => e
       | None => None
       end.

(** The number an element holds after [v] is stored in it. *)
Definition stored (v : F) : F :=
  if float32ArraySupported then fround v else v.

(** [a[i] = v]: past the end a typed array ignores the store and an [Array]
    grows, leaving holes. *)
Fixpoint array_set (a : SampleArray) (i : nat) (v : F) : SampleArray :=
  match a, i with
  | [], O => if float32ArraySupported then [] else [Some v]
  | [], S i' => if float32ArraySupported then [] else None :: array_set [] i' v
  | _ :: a', O => Some (stored v) :: a'
  | e :: a', S i' => e :: array_set a' i' v
  end.

Equations fill_loop (mX1 mX2 : F) (sampleValues : SampleArray) (i : nat) : SampleArray
  by wf (kSplineTableSize - i)%nat lt :=
fill_loop mX1 mX2 sampleValues i :=
  match lt_dec i kSplineTableSize with
  | left _ =>
      fill_loop mX1 mX2
        (array_set sampleValues i (calcBezier (of_nat i * kSampleStepSize) mX1 mX2))
        (S i)
  | right _ => sampleValues
  end.
Next Obligation.
  change (kSplineTableSize - S i < kSplineTableSize - i)%nat.
  lia.
Qed.

(** *** getTForX *)

(** [sampleValues[currentSample] <= aX]; a comparison with [undefined] is
    false. *)
Definition sample_leb (s : option F) (aX : F) : bool :=
  match s with
  | Some v => v <=? aX
  | None => false
  end.

Definition lastSample : Z := Z.of_nat kSplineTableSize - 1.

Definition search_continues (sampleValues : SampleArray) (aX : F) (currentSample : Z) : bool :=
  negb (currentSample =? lastSample)%Z && sample_leb (array_get sampleValues currentSample) aX.

(** The interval search loop; its state is [(intervalStart, currentSample)]. *)
Equations interval_search (sampleValues : SampleArray) (aX intervalStart : F)
    (currentSample : Z) : F * Z
  by wf (Z.to_nat (Z.of_nat (length sampleValues) - currentSample)) lt :=
interval_search sampleValues aX intervalStart currentSample :=
  match bool_dec (search_continues sampleValues aX currentSample) true with
  | left _ =>
      interval_search sampleValues aX (intervalStart + kSampleStepSize) (currentSample + 1)
  | right _ => (intervalStart, currentSample)
  end.
Next Obligation.
  (* the scan only goes on at an index that holds a sample *)
  match goal with H : search_continues _ _ _ = true |- _ =>
    unfold search_continues, array_get in H;
    apply andb_true_iff in H as [_ H] end.
  destruct (Z.ltb_spec currentSample 0); [discriminate|].
  destruct (nth_error sampleValues (Z.to_nat currentSample)) eqn:E; [|discriminate].
  assert (Z.to_nat currentSample < length sampleValues)%nat
    by (apply nth_error_Some; congruence).
  lia.
Qed.

(** [(aX - s0) / (s1 - s0)]; arithmetic on [undefined] gives [NaN], written
    [None]. *)
Definition interpolate (aX : F) (s0 s1 : option F) : option F :=
  match s0, s1 with
  | Some v0, Some v1 => Some ((aX - v0) / (v1 - v0))
  | _, _ => None
  end.

Definition getTForX (mX1 mX2 : F) (sampleValues : SampleArray) (aX : F) : F :=
  let '(intervalStart, currentSample) := interval_search sampleValues aX (lit 0.0) 1 in
  let currentSample := (currentSample - 1)%Z in
  let dist :=
    interpolate aX (array_get sampleValues currentSample)
                   (array_get sampleValues (currentSample + 1)) in
  match dist with
  | Some dist =>
      let guessForT := intervalStart + dist * kSampleStepSize in
      let initialSlope := getSlope guessForT mX1 mX2 in
      if initialSlope >=? NEWTON_MIN_SLOPE then
        newtonRaphsonIterate aX guessForT mX1 mX2
      else if initialSlope === lit 0.0 then
        guessForT
      else
        binarySubdivide aX intervalStart (intervalStart + kSampleStepSize) mX1 mX2
  | None =>
      (* guessForT and initialSlope are NaN: both comparisons are false *)
      binarySubdivide aX intervalStart (intervalStart + kSampleStepSize) mX1 mX2
  end.

(** *** bezier and BezierEasing *)

(** The function [bezier] returns, as the variables it closes over. *)
Record Easing : Type := {
  mX1 : F;
  mY1 : F;
  mX2 : F;
  mY2 : F;
  sampleValues : SampleArray
}.

(** The body of [BezierEasing], over the solver it calls. *)
Definition BezierEasing_body (mX1 mY1 mX2 mY2 : F) (getTForX : F -> F) (x : F) : F :=
  if (mX1 === mY1) && (mX2 === mY2) then x
  else if x === lit 0 then lit 0
  else if x === lit 1 then lit 1
  else calcBezier (getTForX x) mY1 mY2.

Definition BezierEasing (e : Easing) (x : F) : Completion F :=
  Normal (BezierEasing_body (mX1 e) (mY1 e) (mX2 e) (mY2 e)
            (getTForX (mX1 e) (mX2 e) (sampleValues e)) x).

Definition valid_x (mX1 mX2 : F) : bool :=
  (lit 0 <=? mX1) && (mX1 <=? lit 1) && (lit 0 <=? mX2) && (mX2 <=? lit 1).

Definition bezier (mX1 mY1 mX2 mY2 : F) : Completion Easing :=
  if negb (valid_x mX1 mX2) then
    Throw "bezier x values must be in [0, 1] range"
  else
    let sampleValues := new_sampleValues kSplineTableSize in
    let sampleValues :=
      if (mX1 !== mY1) || (mX2 !== mY2) then fill_loop mX1 mX2 sampleValues 0
      else sampleValues in
    Normal {| mX1 := mX1; mY1 := mY1; mX2 := mX2; mY2 := mY2;
              sampleValues := sampleValues |}.

(** *** Vocabulary of the properties *)

(** The test [BezierEasing] makes for the identity line. *)
Definition is_linear (mX1 mY1 mX2 mY2 : F) : bool :=
  (mX1 === mY1) && (mX2 === mY2).

(** What the fill loop leaves in element [i]. *)
Definition sample_at (mX1 mX2 : F) (i : nat) : F :=
  stored (calcBezier (of_nat i * kSampleStepSize) mX1 mX2).

(** [newton_state aX mX1 mX2 t0 i t]: started from the guess [t0], the for
    loop of [newtonRaphsonIterate] is at the head of iteration [i] with
    [aGuessT = t]. Every update divides by a slope that [===] found not to be
    zero. *)
Inductive newton_state (aX mX1 mX2 t0 : F) : nat -> F -> Prop :=
| newton_start : newton_state aX mX1 mX2 t0 0 t0
| newton_update i t :
    newton_state aX mX1 mX2 t0 i t ->
    (i < NEWTON_ITERATIONS)%nat ->
    (getSlope t mX1 mX2 === lit 0.0) = false ->
    newton_state aX mX1 mX2 t0 (S i)
      (t - (calcBezier t mX1 mX2 - aX) / getSlope t mX1 mX2).

(** [bisect_state aX mX1 mX2 a0 b0 i a b]: started on [[a0, b0]], the
    do-while loop of [binarySubdivide] is at the head of an iteration with
    counter [i] and interval [[a, b]]. Every earlier midpoint missed the
    target by more than [SUBDIVISION_PRECISION]. *)
Inductive bisect_state (aX mX1 mX2 a0 b0 : F) : nat -> F -> F -> Prop :=
| bisect_start : bisect_state aX mX1 mX2 a0 b0 0 a0 b0
| bisect_narrow i a b :
    bisect_state aX mX1 mX2 a0 b0 i a b ->
    (S i < SUBDIVISION_MAX_ITERATIONS)%nat ->
    (abs (calcBezier (a + (b - a) / lit 2.0) mX1 mX2 - aX) >? SUBDIVISION_PRECISION) = true ->
    bisect_state aX mX1 mX2 a0 b0 (S i)
      (if calcBezier (a + (b - a) / lit 2.0) mX1 mX2 - aX >? lit 0.0
       then a else a + (b - a) / lit 2.0)
      (if calcBezier (a + (b - a) / lit 2.0) mX1 mX2 - aX >? lit 0.0
       then a + (b - a) / lit 2.0 else b).

(** The three ways [getTForX] returns. *)
Inductive Refinement : Type :=
| UseNewton (guessForT : F)
| UseGuess (guessForT : F)
| UseBisection (intervalStart : F).

(** The branch [getTForX] takes, read off the same tests. *)
Definition getTForX_refinement (mX1 mX2 : F) (sampleValues : SampleArray) (aX : F)
  : Refinement :=
  let '(intervalStart, currentSample) := interval_search sampleValues aX (lit 0.0) 1 in
  let currentSample := (currentSample - 1)%Z in
  match interpolate aX (array_get sampleValues currentSample)
                       (array_get sampleValues (currentSample + 1)) with
  | Some dist =>
      let guessForT := intervalStart + dist * kSampleStepSize in
      let initialSlope := getSlope guessForT mX1 mX2 in
      if initialSlope >=? NEWTON_MIN_SLOPE then UseNewton guessForT
      else if initialSlope === lit 0.0 then UseGuess guessForT
      else UseBisection intervalStart
  | None => UseBisection intervalStart
  end.

Definition refine (mX1 mX2 aX : F) (r : Refinement) : F :=
  match r with
  | UseNewton guessForT => newtonRaphsonIterate aX guessForT mX1 mX2
  | UseGuess guessForT => guessForT
  | UseBisection intervalStart =>
      binarySubdivide aX intervalStart (intervalStart + kSampleStepSize) mX1 mX2
  end.


(** The solver's answer for [x] lies in [[0,1]]. *)
Definition solver_in_unit_interval (x1 y1 x2 y2 x : F) : Prop :=
  forall e, bezier x1 y1 x2 y2 = Normal e ->
    (lit 0 <=? getTForX x1 x2 (sampleValues e) x) = true /\
    (getTForX x1 x2 (sampleValues e) x <=? lit 1) = true.

(** The values [f(x)] and [1 - g(1 - x)] of two easing functions are within
    [1e-6] of each other. *)
Definition symmetric_at (f g : Easing) (x : F) : Prop :=
  forall v w,
    BezierEasing f x = Normal v ->
    BezierEasing g (lit 1 - x) = Normal w ->
    (abs (v - (lit 1 - w)) <=? lit 0.000001) = true.

(** Every midpoint [n] rounds of halving [[a, b]] can reach. *)
Fixpoint midpoints (n : nat) (a b : F) : list F :=
  match n with
  | O => []
  | S n' =>
      let m := a + (b - a) / lit 2.0 in
      m :: midpoints n' a m ++ midpoints n' m b
  end.

(** [st], [st + kSampleStepSize], ...: the values [intervalStart] can take
    after at most [n] more rounds of the interval search. *)
Fixpoint step_sums (n : nat) (st : F) : list F :=
  st :: match n with
        | O => []
        | S n' => step_sums n' (st + kSampleStepSize)
        end.

(** [intervalStart] after [n] rounds of the interval search. *)
Fixpoint add_steps (n : nat) (st : F) : F :=
  match n with
  | O => st
  | S n' => add_steps n' (st + kSampleStepSize)
  end.

Definition bisection_results : list F :=
  flat_map (fun a => midpoints SUBDIVISION_MAX_ITERATIONS a (a + kSampleStepSize))
           (step_sums 9 (lit 0.0)).

Definition in_unit_interval (t : F) : bool :=
  (lit 0 <=? t) && (t <=? lit 1).

End Program.

(** The sample at [i/10] in exact arithmetic. *)
Definition exact_sample (x1 x2 : Qc) (i : nat) : Qc :=
  calcBezier (lit (Z.of_nat i # 10)) x1 x2.

(** *** Vocabulary of the properties in binary64 *)

(** [f] is a finite number of absolute value below [2^k]. *)
Definition magnitude_leb (k : Z) (f : spec_float) : bool :=
  match f with
  | S754_zero _ => true
  | S754_finite _ m e => (Zpos (digits2_pos m) + e <=? k)%Z
  | _ => false
  end.

Definition bounded_by (k : Z) (x : float) : bool := magnitude_leb k (Prim2SF x).

(** The exponent of a binary64 number of magnitude [2^k]. *)
Definition fexp64 (k : Z) : Z := Z.max (k - 53) (-1074).

(** *** Representative curves and sample points *)

Section Representative.

Context {F : Type} {NF : Number F}.
Variable float32ArraySupported : bool.
Local Open Scope num_scope.







End Representative.

(* ------------------------------------------------------------------ *)
(** * Theorems *)

#[export] Instance float_NumberLaws : NumberLaws float.
Proof. split; reflexivity. Qed.

#[export] Instance Qc_NumberLaws : NumberLaws Qc.
Proof. split; reflexivity. Qed.

(* ------------------------------------------------------------------ *)
(** ** Executions of the loops *)

Section Loops.

Context {F : Type} {NF : Number F}.
Variable float32ArraySupported : bool.
Local Open Scope num_scope.

Lemma newton_loop_spec aX mX1 mX2 t0 :
  forall k i t,
    (k = NEWTON_ITERATIONS - i)%nat ->
    (i <= NEWTON_ITERATIONS)%nat ->
    newton_state aX mX1 mX2 t0 i t ->
    exists n t',
      newtonRaphsonIterate_loop aX mX1 mX2 t i = (t', n) /\
      (i <= n <= NEWTON_ITERATIONS)%nat /\
      newton_state aX mX1 mX2 t0 n t' /\
      (n = NEWTON_ITERATIONS \/ (getSlope t' mX1 mX2 === lit 0.0) = true).
Proof.
  induction k as [|k IH]; intros i t Hk Hi Hst;
    rewrite newtonRaphsonIterate_loop_equation_1;
    destruct (lt_dec i NEWTON_ITERATIONS) as [Hlt|Hge]; try lia.
  - exists i, t. split; [reflexivity|]. split; [lia|]. split; [assumption|].
    left; lia.
  - cbv zeta.
    destruct (getSlope t mX1 mX2 === lit 0.0) eqn:Hz.
    + exists i, t. split; [reflexivity|]. split; [lia|]. split; [assumption|].
      now right.
    + destruct (IH (S i) (t - (calcBezier t mX1 mX2 - aX) / getSlope t mX1 mX2))
        as (n & t' & Hrun & Hn & Hst' & Hstop); try lia.
      { now constructor. }
      exists n, t'. split; [exact Hrun|]. split; [lia|]. split; assumption.
Qed.

Lemma bisect_loop_spec aX mX1 mX2 a0 b0 :
  forall k i a b,
    (k = SUBDIVISION_MAX_ITERATIONS - i)%nat ->
    (i < SUBDIVISION_MAX_ITERATIONS)%nat ->
    bisect_state aX mX1 mX2 a0 b0 i a b ->
    exists j a' b' n,
      bisect_state aX mX1 mX2 a0 b0 j a' b' /\
      (i <= j < SUBDIVISION_MAX_ITERATIONS)%nat /\
      binarySubdivide_loop aX mX1 mX2 a b i = (a' + (b' - a') / lit 2.0, n) /\
      ((n = j /\
        (abs (calcBezier (a' + (b' - a') / lit 2.0) mX1 mX2 - aX)
           >? SUBDIVISION_PRECISION) = false) \/
       (n = SUBDIVISION_MAX_ITERATIONS /\ S j = SUBDIVISION_MAX_ITERATIONS /\
        (abs (calcBezier (a' + (b' - a') / lit 2.0) mX1 mX2 - aX)
           >? SUBDIVISION_PRECISION) = true)).
Proof.
  induction k as [|k IH]; intros i a b Hk Hi Hst; [lia|].
  rewrite binarySubdivide_loop_equation_1. cbv zeta.
  destruct (abs (calcBezier (a + (b - a) / lit 2.0) mX1 mX2 - aX)
              >? SUBDIVISION_PRECISION) eqn:Hprec.
  - destruct (lt_dec (S i) SUBDIVISION_MAX_ITERATIONS) as [Hlt|Hge].
    + edestruct (IH (S i)) as (j & a' & b' & n & Hst' & Hj & Hrun & Hstop);
        [lia | exact Hlt | exact (bisect_narrow _ _ _ _ _ _ _ _ Hst Hlt Hprec) |].
      exists j, a', b', n. split; [exact Hst'|]. split; [lia|]. split; assumption.
    + exists i, a, b, (S i). split; [exact Hst|]. split; [lia|]. split; [reflexivity|].
      right. split; [lia|]. split; [lia|]. exact Hprec.
  - exists i, a, b, i. split; [exact Hst|]. split; [lia|]. split; [reflexivity|].
    left. split; [reflexivity|]. exact Hprec.
Qed.

Lemma binarySubdivide_loop_midpoints aX mX1 mX2 :
  forall k i a b,
    (S k = SUBDIVISION_MAX_ITERATIONS - i)%nat ->
    In (fst (binarySubdivide_loop aX mX1 mX2 a b i)) (midpoints (S k) a b).
Proof.
  induction k as [|k IH]; intros i a b Hk;
    rewrite binarySubdivide_loop_equation_1; cbv zeta;
    destruct (abs _ >? _); try (now left);
    destruct (lt_dec (S i) SUBDIVISION_MAX_ITERATIONS) as [Hlt|Hge];
    try (now left); try lia.
  right. apply in_or_app.
  destruct (_ >? _); [left|right]; apply IH; lia.
Qed.

Lemma fill_loop_table mX1 mX2 :
  fill_loop float32ArraySupported mX1 mX2
    (new_sampleValues float32ArraySupported kSplineTableSize) 0
  = map (fun i => Some (sample_at float32ArraySupported mX1 mX2 i))
        (seq 0 kSplineTableSize).
Proof.
  unfold new_sampleValues, kSplineTableSize, sample_at.
  do 12 (rewrite fill_loop_equation_1; unfold kSplineTableSize;
         match goal with |- context [lt_dec ?a ?b] =>
           destruct (lt_dec a b); [|try lia] end; try lia; cbn [repeat array_set]).
  reflexivity.
Qed.

Lemma array_get_table mX1 mX2 (i : Z) :
  (0 <= i < Z.of_nat kSplineTableSize)%Z ->
  array_get (map (fun i => Some (sample_at float32ArraySupported mX1 mX2 i))
                 (seq 0 kSplineTableSize)) i
  = Some (sample_at float32ArraySupported mX1 mX2 (Z.to_nat i)).
Proof.
  intros Hi. unfold array_get.
  destruct (Z.ltb_spec i 0); [lia|].
  rewrite nth_error_map, nth_error_seq.
  destruct (Nat.ltb_spec (Z.to_nat i) kSplineTableSize); [reflexivity|lia].
Qed.

(** The state [interval_search] returns: the scan runs over samples that are
    [<= aX] and stops at the last index or at the first sample that is not. *)
Lemma interval_search_spec (sv : SampleArray) aX :
  length sv = kSplineTableSize ->
  forall k intervalStart cs,
    k = Z.to_nat (lastSample - cs) ->
    (1 <= cs <= lastSample)%Z ->
    exists cs',
      interval_search sv aX intervalStart cs
        = (add_steps (Z.to_nat (cs' - cs)) intervalStart, cs') /\
      (cs <= cs' <= lastSample)%Z /\
      (forall j, (cs <= j < cs')%Z -> sample_leb (array_get sv j) aX = true) /\
      (cs' = lastSample \/ sample_leb (array_get sv cs') aX = false).
Proof.
  intros Hlen. induction k as [|k IH]; intros st cs Hk Hcs;
    rewrite interval_search_equation_1;
    destruct (bool_dec (search_continues sv aX cs) true) as [Hc|Hc].
  - unfold search_continues in Hc. apply andb_true_iff in Hc as [Hne _].
    apply negb_true_iff, Z.eqb_neq in Hne. lia.
  - exists cs. rewrite Z.sub_diag. split; [reflexivity|]. split; [lia|].
    split; [intros; lia|]. left; lia.
  - unfold search_continues in Hc. apply andb_true_iff in Hc as [Hne Hle].
    apply negb_true_iff, Z.eqb_neq in Hne.
    destruct (IH (st + kSampleStepSize) (cs + 1)%Z) as (cs' & Hrun & Hr & Hall & Hstop);
      try lia.
    exists cs'. split; [|split; [lia|split; [|exact Hstop]]].
    + rewrite Hrun. replace (Z.to_nat (cs' - cs)) with (S (Z.to_nat (cs' - (cs + 1)))) by lia.
      reflexivity.
    + intros j Hj. destruct (Z.eq_dec j cs) as [->|]; [exact Hle|]. apply Hall; lia.
  - exists cs. rewrite Z.sub_diag. split; [reflexivity|]. split; [lia|].
    split; [intros; lia|].
    apply not_true_is_false in Hc. unfold search_continues in Hc.
    apply andb_false_iff in Hc as [Hc|Hc]; [|now right].
    apply negb_false_iff, Z.eqb_eq in Hc. now left.
Qed.

Lemma interval_search_step_sums (sv : SampleArray) aX :
  length sv = kSplineTableSize ->
  forall k intervalStart cs,
    k = Z.to_nat (lastSample - cs) ->
    (1 <= cs <= lastSample)%Z ->
    In (fst (interval_search sv aX intervalStart cs)) (step_sums k intervalStart).
Proof.
  intros Hlen. induction k as [|k IH]; intros st cs Hk Hcs;
    rewrite interval_search_equation_1;
    destruct (bool_dec (search_continues sv aX cs) true) as [Hc|Hc];
    try (now left).
  - unfold search_continues in Hc. apply andb_true_iff in Hc as [Hne _].
    apply negb_true_iff, Z.eqb_neq in Hne. lia.
  - unfold search_continues in Hc. apply andb_true_iff in Hc as [Hne _].
    apply negb_true_iff, Z.eqb_neq in Hne.
    right. apply IH; lia.
Qed.

Lemma getTForX_refine mX1 mX2 sampleValues aX :
  getTForX mX1 mX2 sampleValues aX =
  refine mX1 mX2 aX (getTForX_refinement mX1 mX2 sampleValues aX).
Proof.
  unfold getTForX, getTForX_refinement.
  destruct (interval_search sampleValues aX (lit 0.0) 1) as [intervalStart currentSample].
  destruct (interpolate _ _ _); [|reflexivity]. cbv zeta.
  destruct (_ >=? _); [reflexivity|]. destruct (_ === _); reflexivity.
Qed.

End Loops.

(* ------------------------------------------------------------------ *)
(** ** Construction *)

Section Construction.

Context {F : Type} {NF : Number F}.
Variable float32ArraySupported : bool.
Local Open Scope num_scope.

Lemma bezier_valid mX1 mY1 mX2 mY2 :
  valid_x mX1 mX2 = true ->
  bezier float32ArraySupported mX1 mY1 mX2 mY2 =
  Normal {| mX1 := mX1; mY1 := mY1; mX2 := mX2; mY2 := mY2;
            sampleValues :=
              if is_linear mX1 mY1 mX2 mY2
              then new_sampleValues float32ArraySupported kSplineTableSize
              else map (fun i => Some (sample_at float32ArraySupported mX1 mX2 i))
                       (seq 0 kSplineTableSize) |}.
Proof.
  intros Hv. unfold bezier, is_linear. rewrite Hv. cbn [negb].
  destruct (mX1 === mY1), (mX2 === mY2); cbn [negb orb andb];
    try rewrite fill_loop_table; reflexivity.
Qed.

Lemma bezier_invalid mX1 mY1 mX2 mY2 :
  valid_x mX1 mX2 = false ->
  bezier float32ArraySupported mX1 mY1 mX2 mY2 =
  Throw "bezier x values must be in [0, 1] range".
Proof. intros Hv. unfold bezier. now rewrite Hv. Qed.

Lemma bezier_Normal_inv mX1 mY1 mX2 mY2 e :
  bezier float32ArraySupported mX1 mY1 mX2 mY2 = Normal e ->
  valid_x mX1 mX2 = true /\
  e = {| mX1 := mX1; mY1 := mY1; mX2 := mX2; mY2 := mY2;
         sampleValues :=
           if is_linear mX1 mY1 mX2 mY2
           then new_sampleValues float32ArraySupported kSplineTableSize
           else map (fun i => Some (sample_at float32ArraySupported mX1 mX2 i))
                    (seq 0 kSplineTableSize) |}.
Proof.
  intros H. destruct (valid_x mX1 mX2) eqn:Hv.
  - split; [reflexivity|]. rewrite (bezier_valid _ _ _ _ Hv) in H. congruence.
  - rewrite (bezier_invalid _ _ _ _ Hv) in H. discriminate.
Qed.

End Construction.

(* ------------------------------------------------------------------ *)
(** ** The scenarios of the specification, in binary64 *)

Example ease_in_out_at_half :
  exists e : Easing (F := float),
    bezier true (lit 0.42) (lit 0) (lit 0.58) (lit 1) = Normal e /\
    BezierEasing e (lit 0.5) = Normal (lit 0.5).
Proof.
  eexists. split; [apply bezier_valid; reflexivity|]. vm_compute. reflexivity.
Qed.

Example ease_in_out_slow_start :
  exists (e : Easing (F := float)) v,
    bezier true (lit 0.42) (lit 0) (lit 0.58) (lit 1) = Normal e /\
    BezierEasing e (lit 0.1) = Normal v /\
    (lit 0.1 >? v)%num = true.
Proof.
  do 2 eexists. split; [apply bezier_valid; reflexivity|].
  split; [reflexivity|]. vm_compute. reflexivity.
Qed.

Example identity_line_values :
  exists e : Easing (F := float),
    bezier true (lit 0) (lit 0) (lit 1) (lit 1) = Normal e /\
    BezierEasing e (lit 0.3) = Normal (lit 0.3) /\
    BezierEasing e (lit 0.73) = Normal (lit 0.73).
Proof.
  eexists. split; [apply bezier_valid; reflexivity|].
  split; vm_compute; reflexivity.
Qed.

Example construction_fails_below :
  bezier true (lit (-0.1)) (lit 0) (lit 0.5) (lit 1 : float)
  = Throw "bezier x values must be in [0, 1] range".
Proof. apply bezier_invalid. reflexivity. Qed.

Example construction_fails_above :
  bezier true (lit 0.5) (lit 0) (lit 1.1) (lit 1 : float)
  = Throw "bezier x values must be in [0, 1] range".
Proof. apply bezier_invalid. reflexivity. Qed.

(* ------------------------------------------------------------------ *)
(** ** Properties that hold in every number system *)

Section Properties.

Context {F : Type} {NF : Number F}.
Variable float32ArraySupported : bool.
Local Open Scope num_scope.

(** C1. For control points accepted by the factory, the easing function
    returns exactly [0] at [0] and exactly [1] at [1]. *)
Theorem C1_endpoints_exact {NL : NumberLaws F} (x1 y1 x2 y2 : F) (e : Easing) :
  bezier float32ArraySupported x1 y1 x2 y2 = Normal e ->
  BezierEasing e (lit 0) = Normal (lit 0) /\
  BezierEasing e (lit 1) = Normal (lit 1).
Proof.
  intros He. apply bezier_Normal_inv in He as [_ ->].
  unfold BezierEasing, BezierEasing_body. cbn [mX1 mY1 mX2 mY2].
  destruct ((x1 === y1) && (x2 === y2)); [split; reflexivity|].
  rewrite eqb_0_0, eqb_1_0, eqb_1_1. split; reflexivity.
Qed.

(** C2. When [x1 === y1] and [x2 === y2] (and [x1], [x2] are in [[0,1]]) the
    factory succeeds, the easing function returns its input unchanged for
    every input, whatever solver it is given (the solver is not consulted),
    and the sample table is the untouched allocation. *)
Theorem C2_identity_law (mX1 mY1 mX2 mY2 : F) :
  valid_x mX1 mX2 = true ->
  (mX1 === mY1) = true ->
  (mX2 === mY2) = true ->
  exists e,
    bezier float32ArraySupported mX1 mY1 mX2 mY2 = Normal e /\
    (forall x, BezierEasing e x = Normal x) /\
    (forall solver x, BezierEasing_body mX1 mY1 mX2 mY2 solver x = x) /\
    sampleValues e = new_sampleValues float32ArraySupported kSplineTableSize.
Proof.
  intros Hv H1 H2. eexists. split; [apply bezier_valid; exact Hv|].
  unfold BezierEasing, BezierEasing_body, is_linear. cbn.
  rewrite H1, H2. cbn. repeat split; reflexivity.
Qed.

(** C3. The factory throws exactly when one of the four range tests on [x1],
    [x2] fails: the outcome is decided by [x1] and [x2] alone, before and
    independently of the table (and of the host's [Float32Array]), so [y1],
    [y2] of any value are accepted. Nothing else throws: the function a
    successful construction returns completes normally on every input. *)
Theorem C3_only_failure (mX1 mY1 mX2 mY2 : F) :
  ((exists message, bezier float32ArraySupported mX1 mY1 mX2 mY2 = Throw message) <->
   ((lit 0 <=? mX1) = false \/ (mX1 <=? lit 1) = false \/
    (lit 0 <=? mX2) = false \/ (mX2 <=? lit 1) = false)) /\
  (forall e, bezier float32ArraySupported mX1 mY1 mX2 mY2 = Normal e ->
     (forall y1 y2, exists e', bezier float32ArraySupported mX1 y1 mX2 y2 = Normal e') /\
     (forall x, exists v, BezierEasing e x = Normal v)).
Proof.
  split.
  - destruct (valid_x mX1 mX2) eqn:Hv.
    + rewrite (bezier_valid _ _ _ _ _ Hv). unfold valid_x in Hv.
      apply andb_true_iff in Hv as [Hv H4]. apply andb_true_iff in Hv as [Hv H3].
      apply andb_true_iff in Hv as [H1 H2].
      split.
      * intros [m Hm]. discriminate.
      * rewrite H1, H2, H3, H4. intros [|[|[|]]]; discriminate.
    + rewrite (bezier_invalid _ _ _ _ _ Hv). split; [intros _|eauto].
      unfold valid_x in Hv.
      destruct (lit 0 <=? mX1); [|now left].
      destruct (mX1 <=? lit 1); [|now right; left].
      destruct (lit 0 <=? mX2); [|now right; right; left].
      destruct (mX2 <=? lit 1); [discriminate|now right; right; right].
  - intros e He. apply bezier_Normal_inv in He as [Hv _]. split.
    + intros y1 y2. eexists. apply bezier_valid; exact Hv.
    + intros x. eexists. reflexivity.
Qed.

(** C7. Started from any guess, [newtonRaphsonIterate] returns the guess
    reached after [n <= 4] updates [t <- t - (bezier(t) - x) / slope(t)], the
    slope being recomputed at each [t]; every one of these updates divides by
    a slope that was tested not to be zero, and the loop stops before the
    fourth update only at a guess whose slope is zero. At the head of any
    iteration, a guess whose slope is zero is returned as it is. *)
Theorem C7_newton_bounded_no_zero_division (aX aGuessT mX1 mX2 : F) :
  (exists n t,
     (n <= 4)%nat /\
     newton_state aX mX1 mX2 aGuessT n t /\
     newtonRaphsonIterate aX aGuessT mX1 mX2 = t /\
     (n = 4%nat \/ (getSlope t mX1 mX2 === lit 0.0) = true)) /\
  (forall i t,
     (getSlope t mX1 mX2 === lit 0.0) = true ->
     newtonRaphsonIterate_loop aX mX1 mX2 t i = (t, i)).
Proof.
  split.
  - destruct (newton_loop_spec aX mX1 mX2 aGuessT (NEWTON_ITERATIONS - 0) 0 aGuessT)
      as (n & t & Hrun & Hn & Hst & Hstop).
    + reflexivity.
    + unfold NEWTON_ITERATIONS; lia.
    + constructor.
    + exists n, t. unfold newtonRaphsonIterate. rewrite Hrun.
      unfold NEWTON_ITERATIONS in *. repeat split; auto; lia.
  - intros i t Hz. rewrite newtonRaphsonIterate_loop_equation_1.
    destruct (lt_dec i NEWTON_ITERATIONS); [|reflexivity].
    cbv zeta. now rewrite Hz.
Qed.

(** C8. Both loops return after a bounded number of iterations. The Newton
    loop leaves with its counter at most 4. The bisection loop returns the
    midpoint of the interval of some iteration [j + 1 <= 10]: every earlier
    midpoint missed the target by more than 1e-7, and either this one does
    not, or it is the tenth. *)
Theorem C8_loops_terminate (aX mX1 mX2 : F) :
  (forall aGuessT, exists t n,
     newtonRaphsonIterate_loop aX mX1 mX2 aGuessT 0 = (t, n) /\ (n <= 4)%nat) /\
  (forall aA aB, exists j a b,
     (S j <= 10)%nat /\
     bisect_state aX mX1 mX2 aA aB j a b /\
     binarySubdivide aX aA aB mX1 mX2 = a + (b - a) / lit 2.0 /\
     ((abs (calcBezier (a + (b - a) / lit 2.0) mX1 mX2 - aX)
         >? SUBDIVISION_PRECISION) = false \/ S j = 10%nat)).
Proof.
  split.
  - intros aGuessT.
    destruct (newton_loop_spec aX mX1 mX2 aGuessT (NEWTON_ITERATIONS - 0) 0 aGuessT)
      as (n & t & Hrun & Hn & _); [reflexivity|unfold NEWTON_ITERATIONS; lia|constructor|].
    exists t, n. split; [exact Hrun|]. unfold NEWTON_ITERATIONS in Hn. lia.
  - intros aA aB.
    destruct (bisect_loop_spec aX mX1 mX2 aA aB (SUBDIVISION_MAX_ITERATIONS - 0) 0 aA aB)
      as (j & a & b & n & Hst & Hj & Hrun & Hstop);
      [reflexivity|unfold SUBDIVISION_MAX_ITERATIONS; lia|constructor|].
    exists j, a, b. unfold binarySubdivide. rewrite Hrun.
    unfold SUBDIVISION_MAX_ITERATIONS in *.
    split; [lia|]. split; [exact Hst|]. split; [reflexivity|].
    destruct Hstop as [[_ Hp]|(_ & Hl & _)]; [now left|now right].
Qed.

(** C10. For a curve that is not the identity line, whatever number reaches
    the solver, the interval search ends, and after the decrement
    [currentSample] is between 0 and 9: both [sampleValues[currentSample]]
    and [sampleValues[currentSample + 1]] are elements of the 11-element
    table (and hold numbers). *)
Theorem C10_interval_index_in_bounds (mX1 mY1 mX2 mY2 : F) (e : Easing) (aX : F) :
  bezier float32ArraySupported mX1 mY1 mX2 mY2 = Normal e ->
  is_linear mX1 mY1 mX2 mY2 = false ->
  exists intervalStart currentSample,
    interval_search (sampleValues e) aX (lit 0.0) 1 = (intervalStart, (currentSample + 1)%Z) /\
    (0 <= currentSample <= 9)%Z /\
    length (sampleValues e) = 11%nat /\
    (exists s0 s1,
       array_get (sampleValues e) currentSample = Some s0 /\
       array_get (sampleValues e) (currentSample + 1) = Some s1).
Proof.
  intros He Hl. apply bezier_Normal_inv in He as [_ ->]. rewrite Hl. cbn [sampleValues].
  set (sv := map _ _).
  assert (Hlen : length sv = kSplineTableSize)
    by (unfold sv; now rewrite length_map, length_seq).
  destruct (interval_search_spec sv aX Hlen (Z.to_nat (lastSample - 1)) (lit 0.0) 1%Z)
    as (cs & Hrun & Hcs & _); [reflexivity|unfold lastSample, kSplineTableSize; lia|].
  unfold lastSample, kSplineTableSize in Hcs.
  eexists _, (cs - 1)%Z. replace (cs - 1 + 1)%Z with cs by lia.
  split; [exact Hrun|]. split; [lia|]. split; [exact Hlen|].
  unfold sv. do 2 eexists.
  split; apply array_get_table; unfold kSplineTableSize; lia.
Qed.

End Properties.

(* ------------------------------------------------------------------ *)
(** ** Exact arithmetic *)

Lemma Qc_stored (f32 : bool) (v : Qc) : stored f32 v = v.
Proof. now destruct f32. Qed.

Lemma Qc_sample_point (i : nat) :
  (i <= 10)%nat ->
  (of_nat i * kSampleStepSize)%num = (lit (Z.of_nat i # 10) : Qc).
Proof.
  intros Hi. do 11 (destruct i as [|i]; [apply Qc_is_canon; reflexivity|]). lia.
Qed.

(** C6. A successful construction of a curve that is not the identity line
    holds a table of exactly 11 elements, element [i] being the stored value
    of [calcBezier(i * kSampleStepSize, x1, x2)] with the constant step
    [kSampleStepSize = 1 / (11 - 1)]; in exact arithmetic that is
    [calcBezier(i / 10, x1, x2)]. For the identity line the table is the
    untouched allocation and the easing function is the same whatever the
    table holds. *)
Theorem C6_sample_table :
  (forall (F : Type) (NF : Number F) (f32 : bool) (x1 y1 x2 y2 : F) (e : Easing),
     bezier f32 x1 y1 x2 y2 = Normal e ->
     if is_linear x1 y1 x2 y2 then
       sampleValues e = new_sampleValues f32 kSplineTableSize /\
       (forall sv sv' x,
          BezierEasing {| mX1 := x1; mY1 := y1; mX2 := x2; mY2 := y2; sampleValues := sv |} x =
          BezierEasing {| mX1 := x1; mY1 := y1; mX2 := x2; mY2 := y2; sampleValues := sv' |} x)
     else
       length (sampleValues e) = 11%nat /\
       (forall i, (i <= 10)%nat ->
          array_get (sampleValues e) (Z.of_nat i) =
          Some (stored f32 (calcBezier (of_nat i * (lit 1.0 / (of_nat 11 - lit 1.0))) x1 x2)%num))) /\
  (forall (f32 : bool) (x1 y1 x2 y2 : Qc) (e : Easing),
     bezier f32 x1 y1 x2 y2 = Normal e ->
     is_linear x1 y1 x2 y2 = false ->
     forall i, (i <= 10)%nat ->
       array_get (sampleValues e) (Z.of_nat i) =
       Some (calcBezier (lit (Z.of_nat i # 10)) x1 x2)).
Proof.
  split.
  - intros F NF f32 x1 y1 x2 y2 e He. apply bezier_Normal_inv in He as [_ ->].
    cbn [sampleValues]. destruct (is_linear x1 y1 x2 y2) eqn:Hl.
    + split; [reflexivity|]. intros sv sv' x.
      unfold BezierEasing, BezierEasing_body. cbn [mX1 mY1 mX2 mY2 sampleValues].
      unfold is_linear in Hl. now rewrite Hl.
    + split; [now rewrite length_map, length_seq|].
      intros i Hi. rewrite array_get_table by (unfold kSplineTableSize; lia).
      now rewrite Nat2Z.id.
  - intros f32 x1 y1 x2 y2 e He Hl i Hi. apply bezier_Normal_inv in He as [_ ->].
    rewrite Hl. cbn [sampleValues].
    rewrite array_get_table by (unfold kSplineTableSize; lia).
    rewrite Nat2Z.id. unfold sample_at.
    now rewrite Qc_stored, Qc_sample_point.
Qed.

(* ------------------------------------------------------------------ *)
(** ** Where the numerical claims fail *)


(** C5 fails in binary64 for the curve [bezier(0.05, 0, 0.98, 1)] at
    [x = 1 - 2^-53], the largest number below 1: the Newton iterations return
    [t = 1.000000000000005], above 1. *)
Lemma C5_counterexample :
  valid_x (lit 0.05) (lit 0.98 : float) = true /\
  is_linear (lit 0.05) (lit 0) (lit 0.98) (lit 1 : float) = false /\
  (lit (9007199254740991 # 9007199254740992) >? (lit 0 : float))%num = true /\
  (lit 1 >? (lit (9007199254740991 # 9007199254740992) : float))%num = true /\
  ~ solver_in_unit_interval (F := float) true (lit 0.05) (lit 0) (lit 0.98) (lit 1)
      (lit (9007199254740991 # 9007199254740992)).
Proof.
  assert (Hv : valid_x (lit 0.05) (lit 0.98 : float) = true) by reflexivity.
  do 4 (split; [reflexivity|]). intros H.
  destruct (H _ (bezier_valid true (lit 0.05) (lit 0) (lit 0.98) (lit 1) Hv)) as [_ H1].
  apply (eq_true_false_abs _ H1). vm_compute. reflexivity.
Qed.


(* ------------------------------------------------------------------ *)
(** ** What holds of the solver when it refines by bisection *)

Section Bisection.

Context {F : Type} {NF : Number F}.
Variable float32ArraySupported : bool.
Local Open Scope num_scope.

Lemma sampleValues_length (x1 y1 x2 y2 : F) (e : Easing) :
  bezier float32ArraySupported x1 y1 x2 y2 = Normal e ->
  length (sampleValues e) = kSplineTableSize.
Proof.
  intros He. apply bezier_Normal_inv in He as [_ ->]. cbn [sampleValues].
  destruct (is_linear x1 y1 x2 y2).
  - apply repeat_length.
  - now rewrite length_map, length_seq.
Qed.

Lemma UseBisection_start (x1 x2 : F) (sv : SampleArray) (x a : F) :
  getTForX_refinement x1 x2 sv x = UseBisection a ->
  a = fst (interval_search sv x (lit 0.0) 1).
Proof.
  unfold getTForX_refinement.
  destruct (interval_search sv x (lit 0.0) 1) as [st cs]. cbn [fst].
  destruct (interpolate _ _ _); [cbv zeta|congruence].
  destruct (_ >=? _); [discriminate|]. destruct (_ === _); [discriminate|congruence].
Qed.

(** A bisection started by the solver returns one of finitely many numbers,
    whatever the curve and the target. *)
Lemma bisection_result_listed (x1 y1 x2 y2 x : F) (e : Easing) (a : F) :
  bezier float32ArraySupported x1 y1 x2 y2 = Normal e ->
  getTForX_refinement x1 x2 (sampleValues e) x = UseBisection a ->
  In (getTForX x1 x2 (sampleValues e) x) bisection_results.
Proof.
  intros He Hr. rewrite getTForX_refine, Hr. cbn [refine].
  unfold bisection_results. apply in_flat_map. exists a. split.
  - rewrite (UseBisection_start _ _ _ _ _ Hr).
    apply (interval_search_step_sums (sampleValues e) x (sampleValues_length _ _ _ _ _ He) 9).
    + reflexivity.
    + unfold lastSample, kSplineTableSize. lia.
  - unfold binarySubdivide.
    apply (binarySubdivide_loop_midpoints x x1 x2 9 0). reflexivity.
Qed.

(** A bisection that leaves its loop before the iteration bound has passed
    the precision test. *)
Lemma bisection_early_exit (aX mX1 mX2 aA aB : F) :
  (snd (binarySubdivide_loop aX mX1 mX2 aA aB 0) < SUBDIVISION_MAX_ITERATIONS)%nat ->
  (abs (calcBezier (binarySubdivide aX aA aB mX1 mX2) mX1 mX2 - aX)
     >? SUBDIVISION_PRECISION) = false.
Proof.
  destruct (bisect_loop_spec aX mX1 mX2 aA aB (SUBDIVISION_MAX_ITERATIONS - 0) 0 aA aB)
    as (j & a & b & n & _ & _ & Hrun & Hstop);
    [reflexivity|unfold SUBDIVISION_MAX_ITERATIONS; lia|constructor|].
  unfold binarySubdivide. rewrite Hrun. cbn [fst snd]. intros Hn.
  destruct Hstop as [[_ Hp]|[Hn' _]]; [exact Hp|lia].
Qed.

End Bisection.

Lemma float_bisection_results_in_unit_interval :
  forallb in_unit_interval (bisection_results (F := float)) = true.
Proof. vm_compute. reflexivity. Qed.

Lemma Qc_bisection_results_in_unit_interval :
  forallb in_unit_interval (bisection_results (F := Qc)) = true.
Proof. vm_compute. reflexivity. Qed.

(** A bisection that runs its ten iterations can miss by more than [1e-6]:
    for the x-axis curve of [bezier(0, _, 1, _)] and [x = 0.000046] the tenth
    midpoint is [t = 0.00400390625], where the curve is about [1.97e-6] away
    from [x], in binary64 and in exact arithmetic. *)
Lemma bisection_exhausted_imprecise :
  (exists e : Easing (F := float),
     bezier true (lit 0) (lit 0) (lit 1) (lit 0.5) = Normal e /\
     getTForX_refinement (lit 0) (lit 1) (sampleValues e) (lit 0.000046)
       = UseBisection (lit 0.0) /\
     snd (binarySubdivide_loop (lit 0.000046) (lit 0) (lit 1)
            (lit 0.0) (lit 0.0 + kSampleStepSize)%num 0) = 10%nat /\
     (abs (calcBezier (getTForX (lit 0) (lit 1) (sampleValues e) (lit 0.000046))
             (lit 0) (lit 1) - lit 0.000046) <=? lit 0.000001)%num = false) /\
  (exists e : Easing (F := Qc),
     bezier true (lit 0) (lit 0) (lit 1) (lit 0.5) = Normal e /\
     getTForX_refinement (lit 0) (lit 1) (sampleValues e) (lit 0.000046)
       = UseBisection (lit 0.0) /\
     snd (binarySubdivide_loop (lit 0.000046) (lit 0) (lit 1)
            (lit 0.0) (lit 0.0 + kSampleStepSize)%num 0) = 10%nat /\
     (abs (calcBezier (getTForX (lit 0) (lit 1) (sampleValues e) (lit 0.000046))
             (lit 0) (lit 1) - lit 0.000046) <=? lit 0.000001)%num = false).
Proof.
  split; (eexists; split; [apply bezier_valid; reflexivity|]);
    (split; [vm_compute; reflexivity|]); (split; vm_compute; reflexivity).
Qed.

(* ------------------------------------------------------------------ *)
(** ** Binary64: no overflow in the evaluator *)

Section Magnitude.

Local Open Scope Z_scope.

(** *** Digits *)

Lemma digits2_pos_lt (p : positive) : Zpos p < 2 ^ Zpos (digits2_pos p).
Proof.
  induction p as [q IH|q IH|]; cbn [digits2_pos]; rewrite ?Pos2Z.inj_succ, ?Z.pow_succ_r by lia;
    lia.
Qed.

Lemma digits2_pos_ge (p : positive) : 2 ^ (Zpos (digits2_pos p) - 1) <= Zpos p.
Proof.
  induction p as [q IH|q IH|]; cbn [digits2_pos]; rewrite ?Pos2Z.inj_succ.
  - replace (Z.succ (Zpos (digits2_pos q)) - 1) with (Z.succ (Zpos (digits2_pos q) - 1)) by lia.
    rewrite Z.pow_succ_r by lia. lia.
  - replace (Z.succ (Zpos (digits2_pos q)) - 1) with (Z.succ (Zpos (digits2_pos q) - 1)) by lia.
    rewrite Z.pow_succ_r by lia. lia.
  - cbn. lia.
Qed.

Lemma Zdigits2_nonneg (z : Z) : 0 <= Zdigits2 z.
Proof. destruct z; cbn; lia. Qed.

Lemma Zdigits2_lt_pow (z : Z) : 0 <= z -> z < 2 ^ Zdigits2 z.
Proof.
  destruct z as [|p|p]; intros H; try lia.
  - cbn. lia.
  - apply digits2_pos_lt.
Qed.

Lemma Zdigits2_le (z k : Z) : 0 <= z -> 0 <= k -> z < 2 ^ k -> Zdigits2 z <= k.
Proof.
  destruct z as [|p|p]; intros Hz Hk Hlt; [exact Hk| |lia].
  cbn [Zdigits2].
  pose proof (digits2_pos_ge p) as Hge.
  destruct (Z.le_gt_cases (Zpos (digits2_pos p)) k) as [|Hgt]; [assumption|exfalso].
  assert (2 ^ k <= 2 ^ (Zpos (digits2_pos p) - 1)) by (apply Z.pow_le_mono_r; lia).
  lia.
Qed.

(** *** Shifting right *)

Lemma shr_1_half (r : shr_record) :
  0 <= shr_m r -> 0 <= shr_m (shr_1 r) /\ 2 * shr_m (shr_1 r) <= shr_m r.
Proof.
  destruct r as [m r s]. cbn [shr_m]. intros Hm.
  destruct m as [|p|p]; [cbn; lia| |lia].
  destruct p; cbn [shr_1 shr_m]; lia.
Qed.

Lemma iter_shr_1 (p : positive) :
  forall r, 0 <= shr_m r ->
    0 <= shr_m (iter_pos shr_1 p r) /\ 2 ^ Zpos p * shr_m (iter_pos shr_1 p r) <= shr_m r.
Proof.
  induction p as [q IH|q IH|]; intros r Hr; cbn [iter_pos].
  - destruct (shr_1_half r Hr) as [H0 H1].
    destruct (IH _ H0) as [H2 H3]. destruct (IH _ H2) as [H4 H5].
    split; [exact H4|].
    replace (Zpos q~1) with (Zpos q + Zpos q + 1) by lia.
    rewrite !Z.pow_add_r by lia. change (2 ^ 1) with 2.
    set (a := 2 ^ Zpos q) in *. assert (0 < a) by (apply Z.pow_pos_nonneg; lia). nia.
  - destruct (IH _ Hr) as [H2 H3]. destruct (IH _ H2) as [H4 H5].
    split; [exact H4|].
    replace (Zpos q~0) with (Zpos q + Zpos q) by lia.
    rewrite Z.pow_add_r by lia.
    set (a := 2 ^ Zpos q) in *. assert (0 < a) by (apply Z.pow_pos_nonneg; lia). nia.
  - destruct (shr_1_half r Hr) as [H0 H1]. split; [exact H0|].
    change (2 ^ 1) with 2. lia.
Qed.

Lemma shr_record_of_loc_m (m : Z) (l : location) : shr_m (shr_record_of_loc m l) = m.
Proof. destruct l as [|[]]; reflexivity. Qed.

Lemma fexp_64 (k : Z) : fexp prec emax k = fexp64 k.
Proof. reflexivity. Qed.

(** The mantissa and exponent [shr_fexp] returns. *)
Lemma shr_fexp_bound (m e : Z) (l : location) :
  0 <= m ->
  0 <= shr_m (fst (shr_fexp prec emax m e l)) /\
  snd (shr_fexp prec emax m e l) = Z.max e (fexp64 (Zdigits2 m + e)) /\
  Zdigits2 (shr_m (fst (shr_fexp prec emax m e l))) + snd (shr_fexp prec emax m e l)
    <= Z.max (Zdigits2 m + e) (fexp64 (Zdigits2 m + e)).
Proof.
  intros Hm. unfold shr_fexp. rewrite fexp_64.
  set (d := Zdigits2 m). set (n := fexp64 (d + e) - e).
  pose proof (Zdigits2_nonneg m) as Hd. fold d in Hd.
  unfold shr. destruct n as [|p|p] eqn:Hn; cbn [fst snd]; rewrite ?shr_record_of_loc_m.
  - fold d. split; [exact Hm|]. split; lia.
  - destruct (iter_shr_1 p (shr_record_of_loc m l)) as [H0 H1];
      [now rewrite shr_record_of_loc_m|]. rewrite shr_record_of_loc_m in H1.
    set (m' := shr_m (iter_pos shr_1 p (shr_record_of_loc m l))) in *.
    split; [exact H0|]. split; [lia|].
    pose proof (Zdigits2_lt_pow m Hm) as Hlt. fold d in Hlt.
    assert (Hp : 0 < 2 ^ Zpos p) by (apply Z.pow_pos_nonneg; lia).
    destruct (Z.le_gt_cases (Zpos p) d) as [Hle|Hgt].
    + assert (Zdigits2 m' <= d - Zpos p); [|lia].
      apply Zdigits2_le; try lia.
      replace d with (Zpos p + (d - Zpos p)) in Hlt by lia.
      rewrite Z.pow_add_r in Hlt by lia. nia.
    + assert (Zdigits2 m' <= 0); [|lia].
      apply Zdigits2_le; try lia.
      assert (2 ^ d <= 2 ^ Zpos p) by (apply Z.pow_le_mono_r; lia).
      cbn. nia.
  - fold d. split; [exact Hm|]. split; lia.
Qed.

Lemma round_nearest_even_bound (m : Z) (l : location) :
  0 <= m -> m <= round_nearest_even m l <= m + 1.
Proof.
  intros Hm. destruct l as [|[]]; cbn [round_nearest_even]; try lia.
  destruct (Z.even m); lia.
Qed.

Lemma Zdigits2_succ (m m' : Z) :
  0 <= m -> 0 <= m' <= m + 1 -> Zdigits2 m' <= Zdigits2 m + 1.
Proof.
  intros Hm Hm'. pose proof (Zdigits2_nonneg m).
  apply Zdigits2_le; try lia.
  pose proof (Zdigits2_lt_pow m Hm).
  rewrite Z.pow_add_r by lia. change (2 ^ 1) with 2. lia.
Qed.

(** Rounding a non-negative mantissa of magnitude below [2^k]: no overflow,
    and the result is below [2^(k+1)]. *)
Lemma binary_round_aux_bound (s : bool) (m e : Z) (l : location) (k : Z) :
  0 <= m ->
  Zdigits2 m + e <= k ->
  -1074 <= k <= 970 ->
  magnitude_leb (k + 1) (binary_round_aux prec emax s m e l) = true.
Proof.
  intros Hm Hk Hr. unfold binary_round_aux.
  destruct (shr_fexp_bound m e l Hm) as (H0 & He1 & Hd1).
  destruct (shr_fexp prec emax m e l) as [mrs' e'] eqn:E1. cbn [fst snd] in *.
  pose proof (round_nearest_even_bound (shr_m mrs') (loc_of_shr_record mrs') H0) as Hrn.
  set (m2 := round_nearest_even (shr_m mrs') (loc_of_shr_record mrs')) in *.
  assert (Hm2 : 0 <= m2) by lia.
  destruct (shr_fexp_bound m2 e' loc_Exact Hm2) as (H3 & He2 & Hd2).
  destruct (shr_fexp prec emax m2 e' loc_Exact) as [mrs'' e''] eqn:E2. cbn [fst snd] in *.
  pose proof (Zdigits2_succ (shr_m mrs') m2 H0 ltac:(lia)) as Hs.
  pose proof (Zdigits2_nonneg m). pose proof (Zdigits2_nonneg m2).
  pose proof (Zdigits2_nonneg (shr_m mrs')).
  unfold fexp64 in *.
  destruct (shr_m mrs'') as [|p|p] eqn:Em; [reflexivity| |lia].
  cbn [Zdigits2] in Hd2.
  assert (Hle : (e'' <=? emax - prec) = true).
  { apply Z.leb_le. change (emax - prec) with 971. lia. }
  rewrite Hle. cbn [magnitude_leb]. apply Z.leb_le. lia.
Qed.

Lemma magnitude_leb_mono (k k' : Z) (f : spec_float) :
  k <= k' -> magnitude_leb k f = true -> magnitude_leb k' f = true.
Proof.
  intros Hk. destruct f; cbn [magnitude_leb]; try easy.
  rewrite !Z.leb_le. lia.
Qed.

(** *** Multiplication *)

Lemma digits2_pos_mul (m1 m2 : positive) :
  Zpos (digits2_pos (m1 * m2)) <= Zpos (digits2_pos m1) + Zpos (digits2_pos m2).
Proof.
  change (Zpos (digits2_pos (m1 * m2))) with (Zdigits2 (Zpos (m1 * m2))).
  apply Zdigits2_le; try lia.
  pose proof (digits2_pos_lt m1). pose proof (digits2_pos_lt m2).
  rewrite Z.pow_add_r, Pos2Z.inj_mul by lia. nia.
Qed.

Lemma SFmul_bound (ka kb : Z) (a b : spec_float) :
  magnitude_leb ka a = true ->
  magnitude_leb kb b = true ->
  -1074 <= ka + kb <= 970 ->
  magnitude_leb (ka + kb + 1) (SFmul prec emax a b) = true.
Proof.
  destruct a as [sa|sa| |sa ma ea], b as [sb|sb| |sb mb eb]; cbn [magnitude_leb SFmul];
    try easy.
  rewrite !Z.leb_le. intros Ha Hb Hk.
  apply binary_round_aux_bound; try lia.
  cbn [Zdigits2]. pose proof (digits2_pos_mul ma mb). lia.
Qed.

(** *** Addition and subtraction *)

Lemma iter_xO (d m : positive) : Zpos (Pos.iter xO m d) = Zpos m * 2 ^ Zpos d.
Proof.
  induction d as [|d IH] using Pos.peano_ind.
  - cbn. lia.
  - rewrite Pos.iter_succ, Pos2Z.inj_xO, IH, Pos2Z.inj_succ, Z.pow_succ_r by lia. ring.
Qed.

(** Aligning a mantissa to a smaller exponent keeps the value. *)
Lemma shl_align_value (m : positive) (e e' : Z) :
  e' <= e ->
  Zpos (fst (shl_align m e e')) = Zpos m * 2 ^ (e - e').
Proof.
  intros He. unfold shl_align.
  destruct (e' - e) as [|p|p] eqn:E; cbn [fst]; try lia.
  - replace (e - e') with 0 by lia. cbn. lia.
  - rewrite iter_xO. f_equal. f_equal. lia.
Qed.

Lemma shl_align_exponent (m : positive) (e e' : Z) :
  snd (shl_align m e e') = Z.min e e'.
Proof.
  unfold shl_align. destruct (e' - e) as [|p|p] eqn:E; cbn [snd]; lia.
Qed.

Lemma shl_align_magnitude (m : positive) (e e' : Z) :
  Zpos (digits2_pos (fst (shl_align m e e'))) + snd (shl_align m e e')
  <= Zpos (digits2_pos m) + e.
Proof.
  unfold shl_align. destruct (e' - e) as [|p|p] eqn:E; cbn [fst snd]; try lia.
  change (Zpos (digits2_pos (Pos.iter xO m p))) with (Zdigits2 (Zpos (Pos.iter xO m p))).
  assert (Zdigits2 (Zpos (Pos.iter xO m p)) <= Zpos (digits2_pos m) + Zpos p); [|lia].
  apply Zdigits2_le; try lia. rewrite iter_xO, Z.pow_add_r by lia.
  pose proof (digits2_pos_lt m).
  assert (0 < 2 ^ Zpos p) by (apply Z.pow_pos_nonneg; lia). nia.
Qed.

Lemma binary_round_bound (s : bool) (m : positive) (e k : Z) :
  Zpos (digits2_pos m) + e <= k ->
  -1074 <= k <= 970 ->
  magnitude_leb (k + 1) (binary_round prec emax s m e) = true.
Proof.
  intros Hk Hr. unfold binary_round.
  pose proof (shl_align_magnitude m e (fexp prec emax (Zpos (digits2_pos m) + e))) as Hs.
  destruct (shl_align m e _) as [mz ez]. cbn [fst snd] in Hs.
  apply binary_round_aux_bound; try lia. cbn [Zdigits2]. lia.
Qed.

Lemma binary_normalize_bound (z e k : Z) :
  Z.abs z < 2 ^ (k - e) ->
  e <= k ->
  -1074 <= k <= 970 ->
  magnitude_leb (k + 1) (binary_normalize prec emax z e false) = true.
Proof.
  intros Hz He Hk. unfold binary_normalize.
  destruct z as [|p|p]; [reflexivity| |];
    apply binary_round_bound; try lia;
    assert (Zdigits2 (Zpos p) <= k - e) by (apply Zdigits2_le; lia);
    cbn [Zdigits2] in *; lia.
Qed.

Lemma aligned_lt (m : positive) (e ez k : Z) :
  Zpos (digits2_pos m) + e <= k -> ez <= e ->
  Zpos (fst (shl_align m e ez)) < 2 ^ (k - ez).
Proof.
  intros Hk He. rewrite shl_align_value by exact He.
  pose proof (digits2_pos_lt m) as Hlt.
  replace (k - ez) with ((k - e) + (e - ez)) by lia. rewrite Z.pow_add_r by lia.
  assert (2 ^ Zpos (digits2_pos m) <= 2 ^ (k - e)) by (apply Z.pow_le_mono_r; lia).
  assert (0 < 2 ^ (e - ez)) by (apply Z.pow_pos_nonneg; lia). nia.
Qed.

Lemma SFadd_bound (k : Z) (a b : spec_float) :
  magnitude_leb k a = true ->
  magnitude_leb k b = true ->
  -1074 <= k <= 969 ->
  magnitude_leb (k + 2) (SFadd prec emax a b) = true.
Proof.
  intros Ha Hb Hk.
  destruct a as [sa|sa| |sa ma ea], b as [sb|sb| |sb mb eb]; try easy;
    try (apply (magnitude_leb_mono k); [lia|]; cbn [SFadd]; try assumption;
         destruct sa, sb; reflexivity).
  cbn [magnitude_leb] in Ha, Hb. rewrite Z.leb_le in Ha, Hb.
  cbn [SFadd]. cbv zeta.
  replace (k + 2) with ((k + 1) + 1) by lia.
  apply binary_normalize_bound; try lia.
  pose proof (aligned_lt ma ea (Z.min ea eb) k Ha ltac:(lia)) as H1.
  pose proof (aligned_lt mb eb (Z.min ea eb) k Hb ltac:(lia)) as H2.
  replace (k + 1 - Z.min ea eb) with (Z.succ (k - Z.min ea eb)) by lia.
  rewrite Z.pow_succ_r by lia.
  change (IntDef.Z.min ea eb) with (Z.min ea eb).
  destruct sa, sb; cbn [cond_Zopp]; lia.
Qed.

Lemma SFsub_bound (k : Z) (a b : spec_float) :
  magnitude_leb k a = true ->
  magnitude_leb k b = true ->
  -1074 <= k <= 969 ->
  magnitude_leb (k + 2) (SFsub prec emax a b) = true.
Proof.
  intros Ha Hb Hk.
  destruct a as [sa|sa| |sa ma ea], b as [sb|sb| |sb mb eb]; try easy;
    try (apply (magnitude_leb_mono k); [lia|]; cbn [SFsub]; try assumption;
         destruct sa, sb; reflexivity).
  cbn [magnitude_leb] in Ha, Hb. rewrite Z.leb_le in Ha, Hb.
  cbn [SFsub]. cbv zeta.
  replace (k + 2) with ((k + 1) + 1) by lia.
  apply binary_normalize_bound; try lia.
  pose proof (aligned_lt ma ea (Z.min ea eb) k Ha ltac:(lia)) as H1.
  pose proof (aligned_lt mb eb (Z.min ea eb) k Hb ltac:(lia)) as H2.
  replace (k + 1 - Z.min ea eb) with (Z.succ (k - Z.min ea eb)) by lia.
  rewrite Z.pow_succ_r by lia.
  change (IntDef.Z.min ea eb) with (Z.min ea eb).
  destruct sa, sb; cbn [cond_Zopp]; lia.
Qed.

End Magnitude.

Section Binary64.

Local Open Scope num_scope.

Lemma bounded_by_mono (k k' : Z) (x : float) :
  (k <= k')%Z -> bounded_by k x = true -> bounded_by k' x = true.
Proof. apply magnitude_leb_mono. Qed.

Lemma mul_bounded (ka kb k : Z) (a b : float) :
  bounded_by ka a = true -> bounded_by kb b = true ->
  (-1074 <= ka + kb <= 970)%Z -> (ka + kb + 1 <= k)%Z ->
  bounded_by k (a * b) = true.
Proof.
  intros Ha Hb Hr Hk. apply (bounded_by_mono (ka + kb + 1)); [exact Hk|].
  unfold bounded_by. cbn [mul float_Number]. rewrite FloatAxioms.mul_spec.
  now apply SFmul_bound.
Qed.

Lemma add_bounded (ka kb k : Z) (a b : float) :
  bounded_by ka a = true -> bounded_by kb b = true ->
  (-1074 <= Z.max ka kb <= 969)%Z -> (Z.max ka kb + 2 <= k)%Z ->
  bounded_by k (a + b) = true.
Proof.
  intros Ha Hb Hr Hk. apply (bounded_by_mono (Z.max ka kb + 2)); [exact Hk|].
  unfold bounded_by. cbn [add float_Number]. rewrite FloatAxioms.add_spec.
  apply SFadd_bound; [| |exact Hr].
  - apply (magnitude_leb_mono ka); [lia|exact Ha].
  - apply (magnitude_leb_mono kb); [lia|exact Hb].
Qed.

Lemma sub_bounded (ka kb k : Z) (a b : float) :
  bounded_by ka a = true -> bounded_by kb b = true ->
  (-1074 <= Z.max ka kb <= 969)%Z -> (Z.max ka kb + 2 <= k)%Z ->
  bounded_by k (a - b) = true.
Proof.
  intros Ha Hb Hr Hk. apply (bounded_by_mono (Z.max ka kb + 2)); [exact Hk|].
  unfold bounded_by. cbn [sub float_Number]. rewrite FloatAxioms.sub_spec.
  apply SFsub_bound; [| |exact Hr].
  - apply (magnitude_leb_mono ka); [lia|exact Ha].
  - apply (magnitude_leb_mono kb); [lia|exact Hb].
Qed.

(** A valid mantissa has at most 53 digits. *)
Lemma valid_digits (s : bool) (m : positive) (e : Z) :
  valid_binary prec emax (S754_finite s m e) = true ->
  (Zpos (digits2_pos m) <= 53)%Z.
Proof.
  cbn [valid_binary]. unfold bounded, canonical_mantissa.
  rewrite andb_true_iff, Z.eqb_eq. intros [Hc _].
  change (fexp prec emax (Zpos (digits2_pos m) + e)) with (fexp64 (Zpos (digits2_pos m) + e)) in Hc.
  unfold fexp64 in Hc. lia.
Qed.

(** A number in [[0,1]] is finite and below [2]. *)
Lemma unit_interval_bounded (x : float) :
  in_unit_interval x = true -> bounded_by 1 x = true.
Proof.
  unfold in_unit_interval, bounded_by. rewrite andb_true_iff.
  cbn [leb float_Number]. rewrite !FloatAxioms.leb_spec.
  pose proof (FloatAxioms.Prim2SF_valid x) as Hv.
  change (Prim2SF (lit 0)) with (S754_zero false).
  replace (Prim2SF (lit 1)) with (S754_finite false 4503599627370496 (-52)) by reflexivity.
  destruct (Prim2SF x) as [s|s| |s m e]; intros [H0 H1].
  - reflexivity.
  - destruct s; discriminate.
  - discriminate.
  - apply valid_digits in Hv. cbn [magnitude_leb]. apply Z.leb_le.
    destruct s; [discriminate|].
    unfold SFleb, SFcompare in H1.
    destruct (Z.compare_spec e (-52)); solve [lia | discriminate].
Qed.

Lemma lit_bounded :
  bounded_by 1 (lit 1.0) = true /\ bounded_by 2 (lit 2.0) = true /\
  bounded_by 2 (lit 3.0) = true /\ bounded_by 3 (lit 6.0) = true.
Proof. repeat split; reflexivity. Qed.

(** No overflow and no [NaN] in the evaluator: for control values below
    [2^k] and [t] in [[0,1]], the value of [calcBezier] is a finite number. *)
Lemma calcBezier_bounded (k : Z) (t a1 a2 : float) :
  (1 <= k <= 900)%Z ->
  bounded_by 1 t = true -> bounded_by k a1 = true -> bounded_by k a2 = true ->
  bounded_by (k + 17) (calcBezier t a1 a2) = true.
Proof.
  intros Hk Ht H1 H2.
  destruct lit_bounded as (L1 & L2 & L3 & L6).
  assert (HA : bounded_by (k + 7) (A a1 a2) = true).
  { unfold A.
    assert (P : bounded_by (k + 3) (lit 3.0 * a2) = true)
      by (apply (mul_bounded 2 k); try assumption; lia).
    assert (Q : bounded_by (k + 3) (lit 3.0 * a1) = true)
      by (apply (mul_bounded 2 k); try assumption; lia).
    assert (R : bounded_by (k + 5) (lit 1.0 - lit 3.0 * a2) = true)
      by (apply (sub_bounded 1 (k + 3)); try assumption; lia).
    apply (add_bounded (k + 5) (k + 3)); try assumption; lia. }
  assert (HB : bounded_by (k + 6) (B a1 a2) = true).
  { unfold B.
    assert (P : bounded_by (k + 3) (lit 3.0 * a2) = true)
      by (apply (mul_bounded 2 k); try assumption; lia).
    assert (Q : bounded_by (k + 4) (lit 6.0 * a1) = true)
      by (apply (mul_bounded 3 k); try assumption; lia).
    apply (sub_bounded (k + 3) (k + 4)); try assumption; lia. }
  assert (HC : bounded_by (k + 3) (C a1) = true)
    by (unfold C; apply (mul_bounded 2 k); try assumption; lia).
  unfold calcBezier.
  assert (P1 : bounded_by (k + 9) (A a1 a2 * t) = true)
    by (apply (mul_bounded (k + 7) 1); try assumption; lia).
  assert (P2 : bounded_by (k + 11) (A a1 a2 * t + B a1 a2) = true)
    by (apply (add_bounded (k + 9) (k + 6)); try assumption; lia).
  assert (P3 : bounded_by (k + 13) ((A a1 a2 * t + B a1 a2) * t) = true)
    by (apply (mul_bounded (k + 11) 1); try assumption; lia).
  assert (P4 : bounded_by (k + 15) ((A a1 a2 * t + B a1 a2) * t + C a1) = true)
    by (apply (add_bounded (k + 13) (k + 3)); try assumption; lia).
  apply (mul_bounded (k + 15) 1); try assumption; lia.
Qed.

(** *** Comparisons of numbers *)




Lemma valid_x_unit (F : Type) (NF : Number F) (x1 x2 : F) :
  valid_x x1 x2 = true -> in_unit_interval x1 = true /\ in_unit_interval x2 = true.
Proof.
  unfold valid_x, in_unit_interval. rewrite !andb_true_iff. tauto.
Qed.



End Binary64.

(* ------------------------------------------------------------------ *)
(** ** Exact arithmetic: point symmetry and the interpolated guess *)

Section ExactArithmetic.

Local Open Scope num_scope.

Ltac Qc_unfold :=
  unfold calcBezier, getSlope, A, B, C, kSampleStepSize, of_nat in *;
  cbn [add sub mul div lit Qc_Number] in *.

Ltac Qc_to_Q :=
  cbn [this Q2Qc Qcplus Qcminus Qcmult Qcopp Qcdiv Qcinv];
  rewrite ?Qred_correct.

Lemma calcBezier_mirror (t a1 a2 : Qc) :
  calcBezier (lit 1 - t) (lit 1 - a2) (lit 1 - a1) = lit 1 - calcBezier t a1 a2.
Proof. Qc_unfold. apply Qc_is_canon. Qc_to_Q. ring. Qed.

Lemma getSlope_mirror (t a1 a2 : Qc) :
  getSlope (lit 1 - t) (lit 1 - a2) (lit 1 - a1) = getSlope t a1 a2.
Proof. Qc_unfold. apply Qc_is_canon. Qc_to_Q. ring. Qed.

Lemma mirror_involutive (t : Qc) : lit 1 - (lit 1 - t) = t.
Proof. Qc_unfold. apply Qc_is_canon. Qc_to_Q. ring. Qed.

Lemma mirror_eqb (a b : Qc) : (lit 1 - a === lit 1 - b) = (a === b).
Proof.
  cbn [eqb Qc_Number]. unfold Qc_eq_bool.
  destruct (Qc_eq_dec a b) as [->|Hne].
  - destruct (Qc_eq_dec _ _); congruence.
  - destruct (Qc_eq_dec _ _) as [He|]; [|reflexivity].
    exfalso. apply Hne. rewrite <- (mirror_involutive a), <- (mirror_involutive b).
    now rewrite He.
Qed.

Lemma mirror_update (t c x s : Qc) :
  lit 1 - t - (lit 1 - c - (lit 1 - x)) / s = lit 1 - (t - (c - x) / s).
Proof. Qc_unfold. apply Qc_is_canon. Qc_to_Q. ring. Qed.

Lemma newton_mirror (x x1 x2 : Qc) :
  forall k i t,
    (k = NEWTON_ITERATIONS - i)%nat ->
    newtonRaphsonIterate_loop (lit 1 - x) (lit 1 - x2) (lit 1 - x1) (lit 1 - t) i =
    (lit 1 - fst (newtonRaphsonIterate_loop x x1 x2 t i),
     snd (newtonRaphsonIterate_loop x x1 x2 t i)).
Proof.
  induction k as [|k IH]; intros i t Hk;
    rewrite (newtonRaphsonIterate_loop_equation_1 x),
            (newtonRaphsonIterate_loop_equation_1 (lit 1 - x));
    destruct (lt_dec i NEWTON_ITERATIONS) as [Hlt|Hge];
    try reflexivity; try lia.
  cbv zeta. rewrite getSlope_mirror, calcBezier_mirror.
  destruct (getSlope t x1 x2 === lit 0.0); [reflexivity|].
  rewrite mirror_update. apply IH. lia.
Qed.

Lemma mirror_midpoint (a b : Qc) :
  lit 1 - b + (lit 1 - a - (lit 1 - b)) / lit 2.0 = lit 1 - (a + (b - a) / lit 2.0).
Proof. Qc_unfold. apply Qc_is_canon. Qc_to_Q. field. Qed.

Lemma mirror_abs (u x : Qc) :
  abs (lit 1 - u - (lit 1 - x)) = abs (u - x).
Proof.
  replace (lit 1 - u - (lit 1 - x)) with (x - u).
  - cbn [abs sub Qc_Number]. apply Qcabs_Qcminus.
  - Qc_unfold. apply Qc_is_canon. Qc_to_Q. ring.
Qed.

(** How the sign tests of the two bisections relate. *)
Lemma mirror_sign (u x : Qc) :
  ((u - x >? lit 0.0) = true /\ (lit 1 - u - (lit 1 - x) >? lit 0.0) = false) \/
  ((u - x >? lit 0.0) = false /\ (lit 1 - u - (lit 1 - x) >? lit 0.0) = true) \/
  (abs (u - x) = lit 0).
Proof.
  cbn [ltb Qc_Number]. unfold Qc_ltb.
  destruct (Q_dec u x) as [[Hlt|Hgt]|Heq].
  - right; left. split.
    + apply negb_false_iff, Qle_bool_iff. Qc_unfold. Qc_to_Q. lra.
    + apply negb_true_iff, not_true_is_false. rewrite Qle_bool_iff.
      Qc_unfold. Qc_to_Q. lra.
  - left. split.
    + apply negb_true_iff, not_true_is_false. rewrite Qle_bool_iff.
      Qc_unfold. Qc_to_Q. lra.
    + apply negb_false_iff, Qle_bool_iff. Qc_unfold. Qc_to_Q. lra.
  - right; right. apply Qc_is_canon in Heq. subst u.
    replace (x - x) with (lit 0 : Qc); [apply Qc_is_canon; reflexivity|].
    Qc_unfold. apply Qc_is_canon. Qc_to_Q. ring.
Qed.

Lemma bisect_mirror (x x1 x2 : Qc) :
  forall k i a b,
    (S k = SUBDIVISION_MAX_ITERATIONS - i)%nat ->
    binarySubdivide_loop (lit 1 - x) (lit 1 - x2) (lit 1 - x1) (lit 1 - b) (lit 1 - a) i =
    (lit 1 - fst (binarySubdivide_loop x x1 x2 a b i),
     snd (binarySubdivide_loop x x1 x2 a b i)).
Proof.
  induction k as [|k IH]; intros i a b Hk;
    rewrite (binarySubdivide_loop_equation_1 x),
            (binarySubdivide_loop_equation_1 (lit 1 - x));
    cbv zeta; rewrite mirror_midpoint, calcBezier_mirror, mirror_abs;
    set (m := a + (b - a) / lit 2.0);
    (destruct (mirror_sign (calcBezier m x1 x2) x) as [[Hs Hs']|[[Hs Hs']|Hz]];
     [rewrite Hs, Hs'|rewrite Hs, Hs'|rewrite Hz]);
    try (destruct (abs _ >? _); [|reflexivity]);
    try (destruct (lt_dec (S i) SUBDIVISION_MAX_ITERATIONS) as [Hlt|Hge]);
    try reflexivity; try lia.
  - apply IH. lia.
  - apply IH. lia.
Qed.


(** *** The two sample tables *)

Lemma sample_at_exact (f32 : bool) (x1 x2 : Qc) (i : nat) :
  (i <= 10)%nat -> sample_at f32 x1 x2 i = exact_sample x1 x2 i.
Proof.
  intros Hi. unfold sample_at, exact_sample. now rewrite Qc_stored, Qc_sample_point.
Qed.

Lemma tenths_mirror (i : nat) :
  (i <= 10)%nat ->
  (lit (Z.of_nat (10 - i) # 10) : Qc) = lit 1 - lit (Z.of_nat i # 10).
Proof.
  intros Hi. do 11 (destruct i as [|i]; [apply Qc_is_canon; reflexivity|]). lia.
Qed.

Lemma exact_sample_mirror (x1 x2 : Qc) (i : nat) :
  (i <= 10)%nat ->
  exact_sample (lit 1 - x2) (lit 1 - x1) (10 - i) = lit 1 - exact_sample x1 x2 i.
Proof.
  intros Hi. unfold exact_sample. rewrite tenths_mirror by exact Hi.
  apply calcBezier_mirror.
Qed.

Lemma valid_x_bounds (x1 x2 : Qc) :
  valid_x x1 x2 = true -> (0 <= x1 <= 1)%Q /\ (0 <= x2 <= 1)%Q.
Proof.
  unfold valid_x. cbn [leb lit Qc_Number]. unfold Qc_leb.
  rewrite !andb_true_iff, !Qle_bool_iff. cbn [this Q2Qc].
  rewrite !Qred_correct. tauto.
Qed.

(** For control points in [[0,1]] the samples increase strictly. *)
Lemma exact_sample_increasing (x1 x2 : Qc) (i : nat) :
  valid_x x1 x2 = true ->
  (i <= 9)%nat ->
  (exact_sample x1 x2 i < exact_sample x1 x2 (S i))%Q.
Proof.
  intros Hv Hi. apply valid_x_bounds in Hv as [H1 H2]. unfold exact_sample.
  do 10 (destruct i as [|i];
         [Qc_unfold; Qc_to_Q; cbn [Z.of_nat Pos.of_succ_nat Pos.succ]; lra|]).
  lia.
Qed.

Lemma exact_sample_monotone (x1 x2 : Qc) (i j : nat) :
  valid_x x1 x2 = true ->
  (i <= j <= 10)%nat ->
  (exact_sample x1 x2 i <= exact_sample x1 x2 j)%Q.
Proof.
  intros Hv [Hij Hj]. induction Hij as [|j Hij IH].
  - apply Qle_refl.
  - apply Qle_trans with (exact_sample x1 x2 j).
    + apply IH; lia.
    + apply Qlt_le_weak, exact_sample_increasing; [exact Hv|lia].
Qed.


(** The table a successful construction holds for a curve that is not the
    identity line. *)
Local Abbreviation table f32 x1 x2 :=
  (map (fun i => Some (sample_at f32 x1 x2 i)) (seq 0 kSplineTableSize)).

Lemma table_get (f32 : bool) (x1 x2 : Qc) (j : Z) :
  (0 <= j <= 10)%Z ->
  array_get (table f32 x1 x2) j = Some (exact_sample x1 x2 (Z.to_nat j)).
Proof.
  intros Hj.
  rewrite array_get_table by (unfold kSplineTableSize; lia).
  now rewrite sample_at_exact by lia.
Qed.

Lemma table_leb (f32 : bool) (x1 x2 x : Qc) (j : Z) :
  (0 <= j <= 10)%Z ->
  sample_leb (array_get (table f32 x1 x2) j) x = true <->
  (exact_sample x1 x2 (Z.to_nat j) <= x)%Q.
Proof.
  intros Hj. rewrite table_get by exact Hj. cbn [sample_leb leb Qc_Number].
  unfold Qc_leb. apply Qle_bool_iff.
Qed.

Lemma mirror_table_leb (f32 : bool) (x1 x2 x : Qc) (j : Z) :
  (0 <= j <= 10)%Z ->
  sample_leb (array_get (table f32 (lit 1 - x2) (lit 1 - x1)) j) (lit 1 - x) = true <->
  (x <= exact_sample x1 x2 (Z.to_nat (10 - j)))%Q.
Proof.
  intros Hj. rewrite table_leb by exact Hj.
  replace (Z.to_nat j) with (10 - Z.to_nat (10 - j))%nat by lia.
  rewrite exact_sample_mirror by lia.
  generalize (exact_sample x1 x2 (Z.to_nat (10 - j))). intros s.
  Qc_unfold. Qc_to_Q. split; intros H; lra.
Qed.

(** Where the scan of the mirrored table stops. *)
Lemma search_index_mirror (f32 : bool) (x1 x2 x : Qc) (c c' : Z) :
  valid_x x1 x2 = true ->
  (forall i, (1 <= i <= 9)%nat -> x <> exact_sample x1 x2 i) ->
  (1 <= c <= 10)%Z ->
  (forall j, (1 <= j < c)%Z -> sample_leb (array_get (table f32 x1 x2) j) x = true) ->
  (c = 10%Z \/ sample_leb (array_get (table f32 x1 x2) c) x = false) ->
  (1 <= c' <= 10)%Z ->
  (forall j, (1 <= j < c')%Z ->
     sample_leb (array_get (table f32 (lit 1 - x2) (lit 1 - x1)) j) (lit 1 - x) = true) ->
  (c' = 10%Z \/
   sample_leb (array_get (table f32 (lit 1 - x2) (lit 1 - x1)) c') (lit 1 - x) = false) ->
  c' = (11 - c)%Z.
Proof.
  intros Hv Hnt Hc Hall Hstop Hc' Hall' Hstop'.
  destruct (Z.lt_trichotomy c' (11 - c)) as [Hlt|[Heq|Hgt]]; [exfalso|exact Heq|exfalso].
  - destruct Hstop' as [|Hstop']; [lia|]. destruct Hstop as [|Hstop]; [lia|].
    apply not_true_iff_false in Hstop, Hstop'.
    rewrite table_leb in Hstop by lia. rewrite mirror_table_leb in Hstop' by lia.
    pose proof (exact_sample_monotone x1 x2 (Z.to_nat c) (Z.to_nat (10 - c')) Hv) as Hm.
    lapply Hm; [|lia]. intros Hle. lra.
  - pose proof (proj1 (mirror_table_leb f32 x1 x2 x (11 - c) ltac:(lia))
                  (Hall' (11 - c)%Z ltac:(lia))) as Hup.
    pose proof (proj1 (table_leb f32 x1 x2 x (c - 1) ltac:(lia))
                  (Hall (c - 1)%Z ltac:(lia))) as Hlow.
    replace (10 - (11 - c))%Z with (c - 1)%Z in Hup by lia.
    apply (Hnt (Z.to_nat (c - 1))); [lia|].
    apply Qc_is_canon. lra.
Qed.

Lemma add_steps_tenths (n : nat) :
  (n <= 10)%nat -> add_steps n (lit 0.0) = (lit (Z.of_nat n # 10) : Qc).
Proof.
  intros Hn. do 11 (destruct n as [|n]; [apply Qc_is_canon; reflexivity|]). lia.
Qed.

Lemma tenths_mirror_start (n : nat) :
  (n <= 9)%nat ->
  (lit (Z.of_nat (9 - n) # 10) : Qc) = lit 1 - (lit (Z.of_nat n # 10) + kSampleStepSize).
Proof.
  intros Hn. do 10 (destruct n as [|n]; [apply Qc_is_canon; reflexivity|]). lia.
Qed.

Lemma mirror_guess (a st x s0 s1 : Qc) :
  (s0 < s1)%Q ->
  lit 1 - (a + st) + (lit 1 - x - (lit 1 - s1)) / (lit 1 - s0 - (lit 1 - s1)) * st =
  lit 1 - (a + (x - s0) / (s1 - s0) * st).
Proof.
  intros Hs. Qc_unfold. apply Qc_is_canon. Qc_to_Q. field. lra.
Qed.

Lemma mirror_interval_end (a st : Qc) : lit 1 - (a + st) + st = lit 1 - a.
Proof. Qc_unfold. apply Qc_is_canon. Qc_to_Q. ring. Qed.

(** The solver of the mirrored curve returns the mirrored parameter. *)
Lemma getTForX_mirror (f32 : bool) (x1 x2 x : Qc) :
  valid_x x1 x2 = true ->
  (forall i, (1 <= i <= 9)%nat -> x <> exact_sample x1 x2 i) ->
  getTForX (lit 1 - x2) (lit 1 - x1) (table f32 (lit 1 - x2) (lit 1 - x1)) (lit 1 - x) =
  lit 1 - getTForX x1 x2 (table f32 x1 x2) x.
Proof.
  intros Hv Hnt. unfold getTForX.
  assert (Hlen : forall a b, length (table f32 a b) = kSplineTableSize)
    by (intros; now rewrite length_map, length_seq).
  destruct (interval_search_spec (table f32 x1 x2) x (Hlen _ _) 9 (lit 0.0) 1%Z)
    as (c & Hrun & Hc & Hall & Hstop); [reflexivity|unfold lastSample, kSplineTableSize; lia|].
  destruct (interval_search_spec (table f32 (lit 1 - x2) (lit 1 - x1)) (lit 1 - x)
              (Hlen _ _) 9 (lit 0.0) 1%Z)
    as (c' & Hrun' & Hc' & Hall' & Hstop'); [reflexivity|unfold lastSample, kSplineTableSize; lia|].
  unfold lastSample, kSplineTableSize in Hc, Hc', Hstop, Hstop'.
  cbn [Z.of_nat Pos.of_succ_nat Pos.succ Z.sub Z.add Z.opp Z.pos_sub Pos.pred_double] in Hc, Hc', Hstop, Hstop'.
  assert (Hcc : c' = (11 - c)%Z)
    by (apply (search_index_mirror f32 x1 x2 x c c'); assumption).
  subst c'. rewrite Hrun, Hrun'. clear Hrun Hrun' Hall Hall' Hstop Hstop'.
  assert (Hn : exists n, (n <= 9)%nat /\ c = (Z.of_nat n + 1)%Z)
    by (exists (Z.to_nat (c - 1)); lia).
  destruct Hn as (n & Hn & ->).
  replace (Z.to_nat (Z.of_nat n + 1 - 1)) with n by lia.
  replace (Z.to_nat (11 - (Z.of_nat n + 1) - 1)) with (9 - n)%nat by lia.
  replace (Z.of_nat n + 1 - 1 + 1)%Z with (Z.of_nat (S n)) by lia.
  replace (Z.of_nat n + 1 - 1)%Z with (Z.of_nat n) by lia.
  replace (11 - (Z.of_nat n + 1) - 1 + 1)%Z with (Z.of_nat (10 - n)) by lia.
  replace (11 - (Z.of_nat n + 1) - 1)%Z with (Z.of_nat (10 - S n)) by lia.
  rewrite !table_get by lia. rewrite !Nat2Z.id.
  rewrite !exact_sample_mirror by lia.
  rewrite !add_steps_tenths by lia. rewrite tenths_mirror_start by exact Hn.
  cbn [interpolate]. cbv zeta.
  pose proof (exact_sample_increasing x1 x2 n Hv Hn) as Hinc.
  rewrite (mirror_guess _ _ _ _ _ Hinc), getSlope_mirror.
  destruct (_ >=? _).
  - unfold newtonRaphsonIterate.
    now rewrite (newton_mirror x x1 x2 (NEWTON_ITERATIONS - 0) 0).
  - destruct (_ === _); [reflexivity|].
    unfold binarySubdivide. rewrite mirror_interval_end.
    now rewrite (bisect_mirror x x1 x2 9 0).
Qed.


Lemma mirror_eqb_0 (x : Qc) : (lit 1 - x === lit 0) = (x === lit 1).
Proof.
  replace (lit 0 : Qc) with (lit 1 - lit 1 : Qc) at 1 by (apply Qc_is_canon; reflexivity).
  apply mirror_eqb.
Qed.

Lemma mirror_eqb_1 (x : Qc) : (lit 1 - x === lit 1) = (x === lit 0).
Proof.
  replace (lit 1 : Qc) with (lit 1 - lit 0 : Qc) at 2 by (apply Qc_is_canon; reflexivity).
  apply mirror_eqb.
Qed.

Lemma is_linear_mirror (x1 y1 x2 y2 : Qc) :
  is_linear (lit 1 - x2) (lit 1 - y2) (lit 1 - x1) (lit 1 - y1) = is_linear x1 y1 x2 y2.
Proof. unfold is_linear. rewrite !mirror_eqb. apply andb_comm. Qed.

Lemma Normal_inj (T : Type) (a b : T) : Normal a = Normal b -> a = b.
Proof. congruence. Qed.

(** The easing function of the mirrored curve, at the mirrored input. *)
Lemma BezierEasing_mirror (f32 : bool) (x1 y1 x2 y2 x : Qc) (f g : Easing) (v w : Qc) :
  bezier f32 x1 y1 x2 y2 = Normal f ->
  bezier f32 (lit 1 - x2) (lit 1 - y2) (lit 1 - x1) (lit 1 - y1) = Normal g ->
  (forall i, (1 <= i <= 9)%nat -> x <> exact_sample x1 x2 i) ->
  BezierEasing f x = Normal v ->
  BezierEasing g (lit 1 - x) = Normal w ->
  v = lit 1 - w.
Proof.
  intros Hf Hg Hnt Hv Hw.
  apply bezier_Normal_inv in Hf as [Hvalid ->]. apply bezier_Normal_inv in Hg as [_ ->].
  unfold BezierEasing in Hv, Hw. cbv [mX1 mY1 mX2 mY2 sampleValues] in Hv, Hw.
  apply Normal_inj in Hv, Hw. subst v w.
  rewrite is_linear_mirror. unfold BezierEasing_body.
  fold (is_linear x1 y1 x2 y2).
  fold (is_linear (lit 1 - x2) (lit 1 - y2) (lit 1 - x1) (lit 1 - y1)).
  rewrite is_linear_mirror, mirror_eqb_0, mirror_eqb_1.
  destruct (is_linear x1 y1 x2 y2).
  - now rewrite mirror_involutive.
  - destruct (x === lit 0) eqn:E0; destruct (x === lit 1) eqn:E1;
      try (apply Qc_is_canon; reflexivity).
    + apply Qc_eq_bool_correct in E0, E1. rewrite E0 in E1. discriminate.
    + cbv beta iota.
      rewrite (getTForX_mirror f32 x1 x2 x Hvalid Hnt), calcBezier_mirror.
      now rewrite mirror_involutive.
Qed.

Lemma Qc_abs_diff_self (v : Qc) : (abs (v - v) <=? lit 0.000001) = true.
Proof.
  replace (v - v) with (lit 0 : Qc); [reflexivity|].
  Qc_unfold. apply Qc_is_canon. Qc_to_Q. ring.
Qed.

(** Point symmetry in exact arithmetic: for a curve the factory accepts and
    the curve with the control points swapped and mirrored,
    [(1 - x2, 1 - y2, 1 - x1, 1 - y1)], the two easing functions satisfy
    [f(x) = 1 - g(1 - x)] at every [x] that is not one of the nine interior
    samples of the x-axis curve. Rounding breaks the equation in binary64. *)
Lemma exact_point_symmetry (f32 : bool) (x1 y1 x2 y2 x : Qc) (f g : Easing) :
  bezier f32 x1 y1 x2 y2 = Normal f ->
  bezier f32 (lit 1 - x2) (lit 1 - y2) (lit 1 - x1) (lit 1 - y1) = Normal g ->
  (forall i, (1 <= i <= 9)%nat -> x <> calcBezier (lit (Z.of_nat i # 10)) x1 x2) ->
  (forall v w,
     BezierEasing f x = Normal v ->
     BezierEasing g (lit 1 - x) = Normal w ->
     v = lit 1 - w) /\
  symmetric_at f g x.
Proof.
  intros Hf Hg Hnt.
  assert (H : forall v w,
             BezierEasing f x = Normal v ->
             BezierEasing g (lit 1 - x) = Normal w ->
             v = lit 1 - w)
    by (intros v w; now apply (BezierEasing_mirror f32 x1 y1 x2 y2 x f g v w)).
  split; [exact H|].
  intros v w Hv Hw. rewrite <- (H v w Hv Hw). apply Qc_abs_diff_self.
Qed.

(** *** The interpolated guess *)

Lemma exact_sample_0 (x1 x2 : Qc) : (exact_sample x1 x2 0 == 0)%Q.
Proof. unfold exact_sample. Qc_unfold. Qc_to_Q. cbn [Z.of_nat]. ring. Qed.

Lemma exact_sample_10 (x1 x2 : Qc) : (exact_sample x1 x2 10 == 1)%Q.
Proof.
  unfold exact_sample. Qc_unfold. Qc_to_Q. cbn [Z.of_nat Pos.of_succ_nat Pos.succ]. ring.
Qed.

Lemma Qc_kSampleStepSize : kSampleStepSize = (lit 0.1 : Qc).
Proof. apply Qc_is_canon. reflexivity. Qed.

Lemma interpolated_in_interval (n : nat) (x s0 s1 : Qc) :
  (n <= 9)%nat ->
  (s0 <= x <= s1)%Q ->
  (s0 < s1)%Q ->
  in_unit_interval (lit (Z.of_nat n # 10) + (x - s0) / (s1 - s0) * kSampleStepSize)%num = true.
Proof.
  intros Hn Hx Hs. unfold in_unit_interval. cbn [leb Qc_Number]. unfold Qc_leb.
  rewrite andb_true_iff, !Qle_bool_iff.
  assert (Hd : exists d : Q, (0 <= d <= 1)%Q /\ ((x - s0) / (s1 - s0) == d)%Q).
  { exists ((x - s0) / (s1 - s0))%Q. split; [|reflexivity]. split.
    - apply Qle_shift_div_l; lra.
    - apply Qle_shift_div_r; lra. }
  destruct Hd as (d & Hd & Hde).
  rewrite Qc_kSampleStepSize.
  do 10 (destruct n as [|n];
         [Qc_unfold; Qc_to_Q; cbn [Z.of_nat Pos.of_succ_nat Pos.succ];
          unfold Qdiv in Hde |- *; rewrite Hde; lra|]).
  lia.
Qed.

(** The guess the solver interpolates for a target in [[0,1]] lies in
    [[0,1]]. *)
Lemma guess_in_unit_interval (f32 : bool) (x1 x2 x g : Qc) :
  valid_x x1 x2 = true ->
  (0 <= x <= 1)%Q ->
  getTForX_refinement x1 x2 (table f32 x1 x2) x = UseGuess g ->
  in_unit_interval g = true.
Proof.
  intros Hv Hx. unfold getTForX_refinement.
  assert (Hlen : length (table f32 x1 x2) = kSplineTableSize)
    by now rewrite length_map, length_seq.
  destruct (interval_search_spec (table f32 x1 x2) x Hlen 9 (lit 0.0) 1%Z)
    as (c & Hrun & Hc & Hall & Hstop); [reflexivity|unfold lastSample, kSplineTableSize; lia|].
  unfold lastSample, kSplineTableSize in Hc, Hstop.
  cbn [Z.of_nat Pos.of_succ_nat Pos.succ Z.sub Z.add Z.opp Z.pos_sub Pos.pred_double] in Hc, Hstop.
  rewrite Hrun. clear Hrun.
  assert (Hlow : (exact_sample x1 x2 (Z.to_nat (c - 1)) <= x)%Q).
  { destruct (Z.eq_dec c 1) as [->|Hc1].
    - cbn [Z.sub Z.add Z.opp Z.pos_sub Z.to_nat]. rewrite exact_sample_0. tauto.
    - apply (table_leb f32); [lia|]. apply Hall; lia. }
  assert (Hup : (x <= exact_sample x1 x2 (S (Z.to_nat (c - 1))))%Q).
  { replace (S (Z.to_nat (c - 1))) with (Z.to_nat c) by lia.
    destruct Hstop as [->|Hstop].
    - cbn [Z.to_nat Pos.to_nat Pos.iter_op Init.Nat.add].
      rewrite exact_sample_10. tauto.
    - apply not_true_iff_false in Hstop. rewrite table_leb in Hstop by lia.
      apply Qlt_le_weak, Qnot_le_lt, Hstop. }
  assert (Hn : exists n, (n <= 9)%nat /\ c = (Z.of_nat n + 1)%Z)
    by (exists (Z.to_nat (c - 1)); lia).
  destruct Hn as (n & Hn & ->).
  replace (Z.to_nat (Z.of_nat n + 1 - 1)) with n in * by lia.
  replace (Z.of_nat n + 1 - 1 + 1)%Z with (Z.of_nat (S n)) by lia.
  replace (Z.of_nat n + 1 - 1)%Z with (Z.of_nat n) by lia.
  rewrite !table_get by lia. rewrite !Nat2Z.id.
  rewrite add_steps_tenths by lia. cbn [interpolate]. cbv zeta.
  destruct (_ >=? _); [discriminate|]. destruct (_ === _); [|discriminate].
  intros Hg. injection Hg as <-.
  apply interpolated_in_interval; [exact Hn|split; assumption|].
  now apply exact_sample_increasing.
Qed.

Lemma in_unit_interval_bounds (x : Qc) :
  in_unit_interval x = true -> (0 <= x <= 1)%Q.
Proof.
  unfold in_unit_interval. cbn [leb lit Qc_Number]. unfold Qc_leb.
  rewrite andb_true_iff, !Qle_bool_iff. cbn [this Q2Qc]. rewrite !Qred_correct. tauto.
Qed.

End ExactArithmetic.

(** C5, amended. When the solver refines by bisection, the [t] it returns
    lies in [[0,1]], in binary64 and in exact arithmetic, for every curve the
    factory accepts and every target. In exact arithmetic the same holds when
    the solver returns the interpolated guess (zero slope) for a target in
    [[0,1]] and a curve that is not the identity line. Nothing is stated of
    the result of the Newton-Raphson iterations. *)
Theorem C5_in_unit_interval_without_newton :
  (forall (f32 : bool) (x1 y1 x2 y2 x : float) (e : Easing) (a : float),
     bezier f32 x1 y1 x2 y2 = Normal e ->
     getTForX_refinement x1 x2 (sampleValues e) x = UseBisection a ->
     in_unit_interval (getTForX x1 x2 (sampleValues e) x) = true) /\
  (forall (f32 : bool) (x1 y1 x2 y2 x : Qc) (e : Easing) (a : Qc),
     bezier f32 x1 y1 x2 y2 = Normal e ->
     getTForX_refinement x1 x2 (sampleValues e) x = UseBisection a ->
     in_unit_interval (getTForX x1 x2 (sampleValues e) x) = true) /\
  (forall (f32 : bool) (x1 y1 x2 y2 x : Qc) (e : Easing) (g : Qc),
     bezier f32 x1 y1 x2 y2 = Normal e ->
     is_linear x1 y1 x2 y2 = false ->
     in_unit_interval x = true ->
     getTForX_refinement x1 x2 (sampleValues e) x = UseGuess g ->
     in_unit_interval (getTForX x1 x2 (sampleValues e) x) = true).
Proof.
  split; [|split].
  - intros f32 x1 y1 x2 y2 x e a He Hr.
    apply (proj1 (forallb_forall _ _) float_bisection_results_in_unit_interval).
    exact (bisection_result_listed f32 x1 y1 x2 y2 x e a He Hr).
  - intros f32 x1 y1 x2 y2 x e a He Hr.
    apply (proj1 (forallb_forall _ _) Qc_bisection_results_in_unit_interval).
    exact (bisection_result_listed f32 x1 y1 x2 y2 x e a He Hr).
  - intros f32 x1 y1 x2 y2 x e g He Hl Hx Hr.
    rewrite getTForX_refine, Hr. cbn [refine].
    apply bezier_Normal_inv in He as [Hv ->]. rewrite Hl in Hr.
    apply (guess_in_unit_interval f32 x1 x2 x g Hv); [|exact Hr].
    now apply in_unit_interval_bounds.
Qed.

(* ------------------------------------------------------------------ *)
(** ** Binary64: point symmetry at the end points and at sample points *)

Section Symmetry.
Local Open Scope num_scope.






End Symmetry.

(* ------------------------------------------------------------------ *)
(** ** The theorems at concrete curves *)

(** C1 at the curve [bezier(0.42, 0, 0.58, 1)] in binary64. *)
Lemma C1_endpoints_exact_witness :
  exists e : Easing (F := float),
    bezier true (lit 0.42) (lit 0) (lit 0.58) (lit 1) = Normal e /\
    BezierEasing e (lit 0) = Normal (lit 0) /\
    BezierEasing e (lit 1) = Normal (lit 1).
Proof.
  eexists. split; [apply bezier_valid; reflexivity|].
  apply (C1_endpoints_exact (F := float) true (lit 0.42) (lit 0) (lit 0.58) (lit 1)).
  apply bezier_valid; reflexivity.
Defined.

(** C2 at the identity line [bezier(0.25, 0.25, 0.75, 0.75)] in binary64. *)
Lemma C2_identity_law_witness :
  valid_x (lit 0.25) (lit 0.75 : float) = true /\
  (lit 0.25 === (lit 0.25 : float))%num = true /\
  (lit 0.75 === (lit 0.75 : float))%num = true /\
  exists e : Easing (F := float),
    bezier true (lit 0.25) (lit 0.25) (lit 0.75) (lit 0.75) = Normal e /\
    (forall x, BezierEasing e x = Normal x) /\
    (forall (solver : float -> float) x,
       BezierEasing_body (lit 0.25) (lit 0.25) (lit 0.75) (lit 0.75) solver x = x) /\
    sampleValues e = new_sampleValues true kSplineTableSize.
Proof.
  do 3 (split; [reflexivity|]).
  apply (C2_identity_law (F := float) true (lit 0.25) (lit 0.25) (lit 0.75) (lit 0.75));
    reflexivity.
Defined.

(** C10 at the curve [bezier(0.42, 0, 0.58, 1)] and the target [0.5], in
    binary64. *)
Lemma C10_interval_index_in_bounds_witness :
  exists e : Easing (F := float),
    bezier true (lit 0.42) (lit 0) (lit 0.58) (lit 1) = Normal e /\
    is_linear (lit 0.42) (lit 0) (lit 0.58) (lit 1 : float) = false /\
    exists intervalStart currentSample,
      interval_search (sampleValues e) (lit 0.5) (lit 0.0) 1
        = (intervalStart, (currentSample + 1)%Z) /\
      (0 <= currentSample <= 9)%Z /\
      length (sampleValues e) = 11%nat /\
      (exists s0 s1,
         array_get (sampleValues e) currentSample = Some s0 /\
         array_get (sampleValues e) (currentSample + 1) = Some s1).
Proof.
  eexists. split; [apply bezier_valid; reflexivity|]. split; [reflexivity|].
  apply (C10_interval_index_in_bounds (F := float) true (lit 0.42) (lit 0) (lit 0.58) (lit 1)).
  - apply bezier_valid; reflexivity.
  - reflexivity.
Defined.

(** C5, amended, at the curve [bezier(0, 0, 0.58, 1)] and the target
    [0.00001] in binary64: the solver bisects [[0, 0.1]]. *)
Lemma C5_in_unit_interval_without_newton_witness :
  exists e : Easing (F := float),
    bezier true (lit 0) (lit 0) (lit 0.58) (lit 1) = Normal e /\
    getTForX_refinement (lit 0) (lit 0.58) (sampleValues e) (lit 0.00001)
      = UseBisection (lit 0.0) /\
    in_unit_interval (getTForX (lit 0) (lit 0.58) (sampleValues e) (lit 0.00001)) = true.
Proof.
  assert (Hv : valid_x (lit 0) (lit 0.58 : float) = true) by reflexivity.
  pose proof (bezier_valid (F := float) true _ (lit 0) _ (lit 1) Hv) as He.
  refine (ex_intro _ _ (conj He _)).
  match goal with |- ?R /\ _ => assert (Hr : R) by (vm_compute; reflexivity) end.
  split; [exact Hr|].
  exact (proj1 C5_in_unit_interval_without_newton true (lit 0) (lit 0) (lit 0.58) (lit 1)
           (lit 0.00001) _ (lit 0.0) He Hr).
Defined.

(* ------------------------------------------------------------------ *)
(** ** Not-a-number and the infinities in binary64 *)

Section NonFinite.

Local Open Scope num_scope.

Lemma Prim2SF_nan (x : float) : Prim2SF x = S754_nan -> x = nan.
Proof.
  intros H. rewrite <- (FloatAxioms.SF2Prim_Prim2SF x), H. reflexivity.
Qed.

Lemma leb_nan_r (v : float) : (v <=? nan) = false.
Proof.
  cbn [leb float_Number]. rewrite FloatAxioms.leb_spec.
  change (Prim2SF nan) with S754_nan.
  now destruct (Prim2SF v).
Qed.

Lemma sub_nan_l (v : float) : nan - v = nan.
Proof.
  cbn [sub float_Number]. apply Prim2SF_nan. rewrite FloatAxioms.sub_spec.
  change (Prim2SF nan) with S754_nan. reflexivity.
Qed.

Lemma sub_nan_r (v : float) : v - nan = nan.
Proof.
  cbn [sub float_Number]. apply Prim2SF_nan. rewrite FloatAxioms.sub_spec.
  change (Prim2SF nan) with S754_nan. now destruct (Prim2SF v).
Qed.

Lemma div_nan_l (v : float) : nan / v = nan.
Proof.
  cbn [div float_Number]. apply Prim2SF_nan. rewrite FloatAxioms.div_spec.
  change (Prim2SF nan) with S754_nan. reflexivity.
Qed.

Lemma mul_nan_r (v : float) : v * nan = nan.
Proof.
  cbn [mul float_Number]. apply Prim2SF_nan. rewrite FloatAxioms.mul_spec.
  change (Prim2SF nan) with S754_nan. now destruct (Prim2SF v).
Qed.

Lemma add_nan_l (v : float) : nan + v = nan.
Proof.
  cbn [add float_Number]. apply Prim2SF_nan. rewrite FloatAxioms.add_spec.
  change (Prim2SF nan) with S754_nan. reflexivity.
Qed.

Lemma getSlope_nan (a1 a2 : float) : getSlope nan a1 a2 = nan.
Proof.
  unfold getSlope. rewrite !mul_nan_r. rewrite add_nan_l. reflexivity.
Qed.

(** The scan of the table stops at once for a target that is not a number. *)
Lemma interval_search_nan (f32 : bool) (x1 x2 : float) :
  interval_search (map (fun i => Some (sample_at f32 x1 x2 i)) (seq 0 kSplineTableSize))
    nan (lit 0.0) 1 = (lit 0.0, 1%Z).
Proof.
  rewrite interval_search_equation_1.
  destruct (bool_dec _ true) as [Hc|Hc]; [exfalso|reflexivity].
  unfold search_continues in Hc. apply andb_true_iff in Hc as [_ Hc].
  rewrite array_get_table in Hc by (unfold kSplineTableSize; lia).
  cbn [sample_leb] in Hc. rewrite leb_nan_r in Hc. discriminate.
Qed.

Lemma binarySubdivide_nan (a b x1 x2 : float) :
  binarySubdivide nan a b x1 x2 = a + (b - a) / lit 2.0.
Proof.
  unfold binarySubdivide. rewrite binarySubdivide_loop_equation_1. cbv zeta.
  rewrite sub_nan_r.
  replace (abs nan >? SUBDIVISION_PRECISION) with false by reflexivity.
  reflexivity.
Qed.

Lemma getTForX_nan (f32 : bool) (x1 x2 : float) :
  getTForX x1 x2 (map (fun i => Some (sample_at f32 x1 x2 i)) (seq 0 kSplineTableSize)) nan
  = lit 0.05.
Proof.
  unfold getTForX. rewrite interval_search_nan.
  change (1 - 1 + 1)%Z with 1%Z. change (1 - 1)%Z with 0%Z.
  rewrite !array_get_table by (unfold kSplineTableSize; lia).
  cbn [interpolate]. cbv zeta.
  rewrite sub_nan_l, div_nan_l.
  replace (lit 0.0 + nan * kSampleStepSize) with nan by reflexivity.
  rewrite getSlope_nan.
  replace (nan >=? NEWTON_MIN_SLOPE) with false by reflexivity.
  replace (nan === lit 0.0) with false by reflexivity.
  rewrite binarySubdivide_nan. reflexivity.
Qed.

(** A number between [0] and [1] is finite. *)
Lemma unit_interval_finite (x : float) :
  (lit 0 <=? x) = true -> (x <=? lit 1) = true -> PrimFloat.is_finite x = true.
Proof.
  cbn [leb float_Number]. rewrite !FloatAxioms.leb_spec.
  unfold PrimFloat.is_finite, PrimFloat.is_nan, PrimFloat.is_infinity.
  rewrite !FloatAxioms.eqb_spec, FloatAxioms.abs_spec.
  change (Prim2SF (lit 0)) with (S754_zero false).
  change (Prim2SF infinity) with (S754_infinity false).
  replace (Prim2SF (lit 1)) with (S754_finite false 4503599627370496 (-52)) by reflexivity.
  destruct (Prim2SF x) as [s|s| |s m e]; intros H0 H1.
  - reflexivity.
  - destruct s; discriminate.
  - discriminate.
  - unfold SFeqb, SFabs, SFcompare.
    rewrite Z.compare_refl, Pos.compare_cont_refl. now destruct s.
Qed.

(** X16. In binary64, [bezier] throws when an x-coordinate is [NaN] or an
    infinity. *)
Theorem X16_non_finite_rejected (f32 : bool) (x1 y1 x2 y2 : float) :
  PrimFloat.is_finite x1 = false \/ PrimFloat.is_finite x2 = false ->
  bezier f32 x1 y1 x2 y2 = Throw "bezier x values must be in [0, 1] range".
Proof.
  intros Hnf. apply bezier_invalid. unfold valid_x.
  destruct (lit 0 <=? x1) eqn:A1; [|reflexivity].
  destruct (x1 <=? lit 1) eqn:B1; [|reflexivity].
  destruct (lit 0 <=? x2) eqn:A2; [|reflexivity].
  destruct (x2 <=? lit 1) eqn:B2; [|reflexivity].
  pose proof (unit_interval_finite x1 A1 B1). pose proof (unit_interval_finite x2 A2 B2).
  destruct Hnf; congruence.
Qed.

End NonFinite.

(* ------------------------------------------------------------------ *)
(** ** Binary64: what the evaluator and the solver return *)

Section Binary64More.
Local Open Scope num_scope.

Lemma bounded_is_finite (k : Z) (x : float) :
  bounded_by k x = true -> PrimFloat.is_finite x = true.
Proof.
  unfold bounded_by, PrimFloat.is_finite, PrimFloat.is_nan, PrimFloat.is_infinity.
  rewrite !FloatAxioms.eqb_spec, FloatAxioms.abs_spec.
  change (Prim2SF infinity) with (S754_infinity false).
  destruct (Prim2SF x) as [s|s| |s m e]; try discriminate; intros _.
  - reflexivity.
  - unfold SFeqb, SFabs, SFcompare.
    rewrite Z.compare_refl, Pos.compare_cont_refl. now destruct s.
Qed.

Lemma getSlope_bounded (k : Z) (t a1 a2 : float) :
  (1 <= k <= 900)%Z ->
  bounded_by 1 t = true -> bounded_by k a1 = true -> bounded_by k a2 = true ->
  bounded_by (k + 18) (getSlope t a1 a2) = true.
Proof.
  intros Hk Ht H1 H2.
  destruct lit_bounded as (L1 & L2 & L3 & L6).
  assert (HA : bounded_by (k + 7) (A a1 a2) = true).
  { unfold A.
    assert (P : bounded_by (k + 3) (lit 3.0 * a2) = true)
      by (apply (mul_bounded 2 k); try assumption; lia).
    assert (Q : bounded_by (k + 3) (lit 3.0 * a1) = true)
      by (apply (mul_bounded 2 k); try assumption; lia).
    assert (R : bounded_by (k + 5) (lit 1.0 - lit 3.0 * a2) = true)
      by (apply (sub_bounded 1 (k + 3)); try assumption; lia).
    apply (add_bounded (k + 5) (k + 3)); try assumption; lia. }
  assert (HB : bounded_by (k + 6) (B a1 a2) = true).
  { unfold B.
    assert (P : bounded_by (k + 3) (lit 3.0 * a2) = true)
      by (apply (mul_bounded 2 k); try assumption; lia).
    assert (Q : bounded_by (k + 4) (lit 6.0 * a1) = true)
      by (apply (mul_bounded 3 k); try assumption; lia).
    apply (sub_bounded (k + 3) (k + 4)); try assumption; lia. }
  assert (HC : bounded_by (k + 3) (C a1) = true)
    by (unfold C; apply (mul_bounded 2 k); try assumption; lia).
  unfold getSlope.
  assert (P1 : bounded_by (k + 10) (lit 3.0 * A a1 a2) = true)
    by (apply (mul_bounded 2 (k + 7)); try assumption; lia).
  assert (P2 : bounded_by (k + 12) (lit 3.0 * A a1 a2 * t) = true)
    by (apply (mul_bounded (k + 10) 1); try assumption; lia).
  assert (P3 : bounded_by (k + 14) (lit 3.0 * A a1 a2 * t * t) = true)
    by (apply (mul_bounded (k + 12) 1); try assumption; lia).
  assert (Q1 : bounded_by (k + 9) (lit 2.0 * B a1 a2) = true)
    by (apply (mul_bounded 2 (k + 6)); try assumption; lia).
  assert (Q2 : bounded_by (k + 11) (lit 2.0 * B a1 a2 * t) = true)
    by (apply (mul_bounded (k + 9) 1); try assumption; lia).
  assert (R1 : bounded_by (k + 16) (lit 3.0 * A a1 a2 * t * t + lit 2.0 * B a1 a2 * t) = true)
    by (apply (add_bounded (k + 14) (k + 11)); try assumption; lia).
  apply (add_bounded (k + 16) (k + 3)); try assumption; lia.
Qed.

(** X17. In binary64, for control values and a parameter in [[0,1]], the
    evaluator neither overflows nor produces [NaN]: [calcBezier] and
    [getSlope] return finite numbers. *)
Theorem X17_evaluator_finite (t a1 a2 : float) :
  in_unit_interval a1 = true ->
  in_unit_interval a2 = true ->
  in_unit_interval t = true ->
  PrimFloat.is_finite (calcBezier t a1 a2) = true /\
  PrimFloat.is_finite (getSlope t a1 a2) = true.
Proof.
  intros H1 H2 Ht. apply unit_interval_bounded in H1, H2, Ht. split.
  - apply (bounded_is_finite 18), (calcBezier_bounded 1); try assumption; lia.
  - apply (bounded_is_finite 19), (getSlope_bounded 1); try assumption; lia.
Qed.

(** A number of absolute value at most [10^6] is below [2^20]. *)
Lemma million_bounded (y : float) :
  (abs y <=? lit 1000000) = true -> bounded_by 20 y = true.
Proof.
  unfold bounded_by. cbn [abs leb float_Number].
  rewrite FloatAxioms.leb_spec, FloatAxioms.abs_spec.
  pose proof (FloatAxioms.Prim2SF_valid y) as Hv.
  replace (Prim2SF (lit 1000000)) with (S754_finite false 8589934592000000 (-33))
    by reflexivity.
  destruct (Prim2SF y) as [s|s| |s m e]; try easy.
  apply valid_digits in Hv. cbn [magnitude_leb SFabs]. intros H. apply Z.leb_le.
  unfold SFleb, SFcompare in H.
  destruct (Z.compare_spec e (-33)); solve [lia | discriminate].
Qed.

(** X15. In binary64, an easing function that is not the identity line maps
    [NaN] to [calcBezier(0.05, y1, y2)]: every comparison with [NaN] is
    false, so the scan stops at once, neither slope test passes and
    [binarySubdivide] leaves its loop at the first midpoint of [[0, 0.1]].
    That value is a finite number when [|y1|] and [|y2|] are at most
    [10^6]. *)
Theorem X15_nan_input (f32 : bool) (x1 y1 x2 y2 : float) (e : Easing) :
  bezier f32 x1 y1 x2 y2 = Normal e ->
  is_linear x1 y1 x2 y2 = false ->
  BezierEasing e nan = Normal (calcBezier (lit 0.05) y1 y2) /\
  ((abs y1 <=? lit 1000000) = true ->
   (abs y2 <=? lit 1000000) = true ->
   PrimFloat.is_finite (calcBezier (lit 0.05) y1 y2) = true).
Proof.
  intros He Hl. split.
  - apply bezier_Normal_inv in He as [_ ->]. rewrite Hl.
    unfold BezierEasing, BezierEasing_body. cbn [mX1 mY1 mX2 mY2 sampleValues].
    unfold is_linear in Hl. rewrite Hl.
    replace (nan === lit 0) with false by reflexivity.
    replace (nan === lit 1) with false by reflexivity.
    now rewrite getTForX_nan.
  - intros H1 H2. apply million_bounded in H1, H2.
    apply (bounded_is_finite 37), (calcBezier_bounded 20); try assumption; [lia|reflexivity].
Qed.

(** *** Where the bisection looks *)

Lemma float_midpoints_inside :
  forallb (fun a : float =>
             forallb (fun t => (a <=? t) && (t <=? a + kSampleStepSize))
                     (midpoints SUBDIVISION_MAX_ITERATIONS a (a + kSampleStepSize)))
          (step_sums 9 (lit 0.0)) = true.
Proof. vm_compute. reflexivity. Qed.

(** X18. In binary64, whatever the curve and the target, when the solver
    refines by bisection the [t] it returns lies between the [intervalStart]
    the scan ended with and [intervalStart + kSampleStepSize]. *)
Theorem X18_bisection_in_located_interval
    (f32 : bool) (x1 y1 x2 y2 x : float) (e : Easing) (a : float) :
  bezier f32 x1 y1 x2 y2 = Normal e ->
  getTForX_refinement x1 x2 (sampleValues e) x = UseBisection a ->
  a = fst (interval_search (sampleValues e) x (lit 0.0) 1) /\
  (a <=? getTForX x1 x2 (sampleValues e) x) = true /\
  (getTForX x1 x2 (sampleValues e) x <=? a + kSampleStepSize) = true.
Proof.
  intros He Hr. pose proof (UseBisection_start _ _ _ _ _ Hr) as Ha.
  split; [exact Ha|]. rewrite getTForX_refine, Hr. cbn [refine].
  assert (Hin : In a (step_sums 9 (lit 0.0))).
  { rewrite Ha.
    apply (interval_search_step_sums (sampleValues e) x (sampleValues_length _ _ _ _ _ _ He) 9).
    - reflexivity.
    - unfold lastSample, kSplineTableSize. lia. }
  pose proof (proj1 (forallb_forall _ _) float_midpoints_inside a Hin) as Hm.
  cbv beta in Hm. rewrite forallb_forall in Hm.
  apply andb_true_iff, Hm. unfold binarySubdivide.
  apply (binarySubdivide_loop_midpoints x x1 x2 9 0). reflexivity.
Qed.

(** *** The first element of the table *)

Lemma mul_zero_r (k : Z) (v z : float) (sz : bool) :
  bounded_by k v = true -> Prim2SF z = S754_zero sz ->
  exists s, Prim2SF (v * z) = S754_zero s.
Proof.
  unfold bounded_by. cbn [mul float_Number]. rewrite FloatAxioms.mul_spec.
  intros Hv ->. destruct (Prim2SF v) as [s|s| |s m e]; try discriminate;
    eexists; reflexivity.
Qed.

Lemma add_zero_l (k : Z) (u w : float) (su : bool) :
  Prim2SF u = S754_zero su -> bounded_by k w = true -> bounded_by k (u + w) = true.
Proof.
  unfold bounded_by. cbn [add float_Number]. rewrite FloatAxioms.add_spec.
  intros -> Hw. destruct (Prim2SF w) as [s|s| |s m e]; try discriminate.
  - now destruct su, s.
  - exact Hw.
Qed.

Lemma calcBezier_at_zero (z a1 a2 : float) (sz : bool) :
  Prim2SF z = S754_zero sz ->
  in_unit_interval a1 = true -> in_unit_interval a2 = true ->
  exists s, Prim2SF (calcBezier z a1 a2) = S754_zero s.
Proof.
  intros Hz H1 H2. apply unit_interval_bounded in H1, H2.
  destruct lit_bounded as (L1 & L2 & L3 & L6).
  assert (HA : bounded_by 8 (A a1 a2) = true).
  { unfold A.
    assert (P : bounded_by 4 (lit 3.0 * a2) = true)
      by (apply (mul_bounded 2 1); try assumption; lia).
    assert (Q : bounded_by 4 (lit 3.0 * a1) = true)
      by (apply (mul_bounded 2 1); try assumption; lia).
    assert (R : bounded_by 6 (lit 1.0 - lit 3.0 * a2) = true)
      by (apply (sub_bounded 1 4); try assumption; lia).
    apply (add_bounded 6 4); try assumption; lia. }
  assert (HB : bounded_by 7 (B a1 a2) = true).
  { unfold B.
    assert (P : bounded_by 4 (lit 3.0 * a2) = true)
      by (apply (mul_bounded 2 1); try assumption; lia).
    assert (Q : bounded_by 5 (lit 6.0 * a1) = true)
      by (apply (mul_bounded 3 1); try assumption; lia).
    apply (sub_bounded 4 5); try assumption; lia. }
  assert (HC : bounded_by 4 (C a1) = true)
    by (unfold C; apply (mul_bounded 2 1); try assumption; lia).
  unfold calcBezier.
  destruct (mul_zero_r 8 (A a1 a2) z sz HA Hz) as [s1 E1].
  pose proof (add_zero_l 7 _ (B a1 a2) s1 E1 HB) as P1.
  destruct (mul_zero_r 7 _ z sz P1 Hz) as [s2 E2].
  pose proof (add_zero_l 4 _ (C a1) s2 E2 HC) as P2.
  exact (mul_zero_r 4 _ z sz P2 Hz).
Qed.

Lemma stored_zero (f32 : bool) (v : float) (s : bool) :
  Prim2SF v = S754_zero s -> stored f32 v = v.
Proof.
  intros Hv. unfold stored. destruct f32; [|reflexivity].
  cbn [fround float_Number]. unfold float_fround. now rewrite Hv.
Qed.

(** X20. In binary64, the first element of the table of a curve that is not
    the identity line is zero, so it is [<=] every target that is not
    negative: with X19, a target in [[0,1]] is bracketed from below by the
    element the scan stops at. *)
Theorem X20_table_starts_at_zero (f32 : bool) (x1 y1 x2 y2 : float) (e : Easing) :
  bezier f32 x1 y1 x2 y2 = Normal e ->
  is_linear x1 y1 x2 y2 = false ->
  exists s0 : float,
    array_get (sampleValues e) 0 = Some s0 /\
    (s0 === lit 0) = true /\
    forall x : float, (lit 0 <=? x) = true -> (s0 <=? x) = true.
Proof.
  intros He Hl. apply bezier_Normal_inv in He as [Hv ->]. rewrite Hl.
  cbn [sampleValues]. apply valid_x_unit in Hv as [H1 H2].
  rewrite array_get_table by (unfold kSplineTableSize; lia).
  eexists. split; [reflexivity|].
  change (Z.to_nat 0) with 0%nat. unfold sample_at.
  assert (Hz : Prim2SF (of_nat 0 * kSampleStepSize)%num = S754_zero false) by reflexivity.
  destruct (calcBezier_at_zero _ x1 x2 false Hz H1 H2) as [s Hs].
  rewrite (stored_zero f32 _ s Hs).
  cbn [eqb leb float_Number]. split.
  - rewrite FloatAxioms.eqb_spec, Hs. reflexivity.
  - intros x. rewrite !FloatAxioms.leb_spec, Hs.
    change (Prim2SF (lit 0)) with (S754_zero false). now destruct (Prim2SF x).
Qed.

End Binary64More.

(* ------------------------------------------------------------------ *)
(** ** The scan of the table *)

Section Scan.
Context {F : Type} {NF : Number F}.
Local Open Scope num_scope.

(** X19. In every number system, the scan of [getTForX] ends with
    [currentSample = i + 1] for some [i <= 9] after adding [kSampleStepSize]
    to [intervalStart] [i] times; the table elements [1 .. i] are [<=] the
    target and, unless [i = 9], element [i + 1] is not. *)
Theorem X19_scan_stops_at_first_larger
    (f32 : bool) (x1 y1 x2 y2 x : F) (e : Easing) :
  bezier f32 x1 y1 x2 y2 = Normal e ->
  exists i : nat,
    (i <= 9)%nat /\
    interval_search (sampleValues e) x (lit 0.0) 1
      = (add_steps i (lit 0.0), (Z.of_nat i + 1)%Z) /\
    (forall j : nat, (1 <= j <= i)%nat ->
       sample_leb (array_get (sampleValues e) (Z.of_nat j)) x = true) /\
    (i = 9%nat \/ sample_leb (array_get (sampleValues e) (Z.of_nat i + 1)) x = false).
Proof.
  intros He. pose proof (sampleValues_length f32 _ _ _ _ _ He) as Hlen.
  destruct (interval_search_spec (sampleValues e) x Hlen 9 (lit 0.0) 1%Z)
    as (c & Hrun & Hc & Hall & Hstop); [reflexivity|unfold lastSample, kSplineTableSize; lia|].
  unfold lastSample, kSplineTableSize in Hc, Hstop.
  exists (Z.to_nat (c - 1)). split; [lia|]. split; [|split].
  - rewrite Hrun. f_equal. lia.
  - intros j Hj. apply Hall. lia.
  - destruct Hstop as [Hs|Hs]; [left; lia|right].
    replace (Z.of_nat (Z.to_nat (c - 1)) + 1)%Z with c by lia. exact Hs.
Qed.

End Scan.

(* ------------------------------------------------------------------ *)
(** ** The binary64 theorems at concrete curves *)



(** X15 at [bezier(0.42, 0, 0.58, 1)]. *)
Lemma X15_nan_input_witness :
  exists e : Easing (F := float),
    bezier true (lit 0.42) (lit 0) (lit 0.58) (lit 1) = Normal e /\
    is_linear (lit 0.42) (lit 0) (lit 0.58) (lit 1 : float) = false /\
    BezierEasing e nan = Normal (calcBezier (lit 0.05) (lit 0) (lit 1)) /\
    ((abs (lit 0) <=? (lit 1000000 : float))%num = true ->
     (abs (lit 1) <=? (lit 1000000 : float))%num = true ->
     PrimFloat.is_finite (calcBezier (lit 0.05) (lit 0) (lit 1)) = true).
Proof.
  assert (Hv : valid_x (lit 0.42) (lit 0.58 : float) = true) by reflexivity.
  pose proof (bezier_valid (F := float) true _ (lit 0) _ (lit 1) Hv) as He.
  refine (ex_intro _ _ (conj He (conj eq_refl _))).
  exact (X15_nan_input true (lit 0.42) (lit 0) (lit 0.58) (lit 1) _ He eq_refl).
Defined.

(** X16 for a first control point at [x = NaN]. *)
Lemma X16_non_finite_rejected_witness :
  (PrimFloat.is_finite nan = false \/ PrimFloat.is_finite (lit 0.58) = false) /\
  bezier true nan (lit 0) (lit 0.58) (lit 1)
    = Throw "bezier x values must be in [0, 1] range".
Proof.
  assert (Hn : PrimFloat.is_finite nan = false \/ PrimFloat.is_finite (lit 0.58) = false)
    by (left; reflexivity).
  split; [exact Hn|].
  exact (X16_non_finite_rejected true nan (lit 0) (lit 0.58) (lit 1) Hn).
Defined.

(** X17 at the x-axis curve of "ease-in-out", [(0.42, 0.58)], and [t = 0.5]. *)
Lemma X17_evaluator_finite_witness :
  in_unit_interval (lit 0.42 : float) = true /\
  in_unit_interval (lit 0.58 : float) = true /\
  in_unit_interval (lit 0.5 : float) = true /\
  PrimFloat.is_finite (calcBezier (lit 0.5) (lit 0.42) (lit 0.58)) = true /\
  PrimFloat.is_finite (getSlope (lit 0.5) (lit 0.42) (lit 0.58)) = true.
Proof.
  do 3 (split; [reflexivity|]).
  apply (X17_evaluator_finite (lit 0.5) (lit 0.42) (lit 0.58)); reflexivity.
Defined.

(** X18 at [bezier(0, 0, 0.58, 1)] and the target [0.00001]. *)
Lemma X18_bisection_in_located_interval_witness :
  exists e : Easing (F := float),
    bezier true (lit 0) (lit 0) (lit 0.58) (lit 1) = Normal e /\
    getTForX_refinement (lit 0) (lit 0.58) (sampleValues e) (lit 0.00001)
      = UseBisection (lit 0.0) /\
    lit 0.0 = fst (interval_search (sampleValues e) (lit 0.00001) (lit 0.0) 1) /\
    (lit 0.0 <=? getTForX (lit 0) (lit 0.58) (sampleValues e) (lit 0.00001))%num = true /\
    (getTForX (lit 0) (lit 0.58) (sampleValues e) (lit 0.00001)
       <=? lit 0.0 + kSampleStepSize)%num = true.
Proof.
  assert (Hv : valid_x (lit 0) (lit 0.58 : float) = true) by reflexivity.
  pose proof (bezier_valid (F := float) true _ (lit 0) _ (lit 1) Hv) as He.
  refine (ex_intro _ _ (conj He _)).
  match goal with |- ?R /\ _ => assert (Hr : R) by (vm_compute; reflexivity) end.
  split; [exact Hr|].
  exact (X18_bisection_in_located_interval true (lit 0) (lit 0) (lit 0.58) (lit 1)
           (lit 0.00001) _ (lit 0.0) He Hr).
Defined.

(** X19 at [bezier(0.42, 0, 0.58, 1)] and the target [0.3], in binary64. *)
Lemma X19_scan_stops_at_first_larger_witness :
  exists e : Easing (F := float),
    bezier true (lit 0.42) (lit 0) (lit 0.58) (lit 1) = Normal e /\
    exists i : nat,
      (i <= 9)%nat /\
      interval_search (sampleValues e) (lit 0.3) (lit 0.0) 1
        = (add_steps i (lit 0.0), (Z.of_nat i + 1)%Z) /\
      (forall j : nat, (1 <= j <= i)%nat ->
         sample_leb (array_get (sampleValues e) (Z.of_nat j)) (lit 0.3) = true) /\
      (i = 9%nat \/
       sample_leb (array_get (sampleValues e) (Z.of_nat i + 1)) (lit 0.3) = false).
Proof.
  assert (Hv : valid_x (lit 0.42) (lit 0.58 : float) = true) by reflexivity.
  pose proof (bezier_valid (F := float) true _ (lit 0) _ (lit 1) Hv) as He.
  refine (ex_intro _ _ (conj He _)).
  exact (X19_scan_stops_at_first_larger true (lit 0.42) (lit 0) (lit 0.58) (lit 1)
           (lit 0.3) _ He).
Defined.

(** X20 at [bezier(0.42, 0, 0.58, 1)]. *)
Lemma X20_table_starts_at_zero_witness :
  exists e : Easing (F := float),
    bezier true (lit 0.42) (lit 0) (lit 0.58) (lit 1) = Normal e /\
    is_linear (lit 0.42) (lit 0) (lit 0.58) (lit 1 : float) = false /\
    exists s0 : float,
      array_get (sampleValues e) 0 = Some s0 /\
      (s0 === lit 0)%num = true /\
      forall x : float, (lit 0 <=? x)%num = true -> (s0 <=? x)%num = true.
Proof.
  assert (Hv : valid_x (lit 0.42) (lit 0.58 : float) = true) by reflexivity.
  pose proof (bezier_valid (F := float) true _ (lit 0) _ (lit 1) Hv) as He.
  refine (ex_intro _ _ (conj He (conj eq_refl _))).
  exact (X20_table_starts_at_zero true (lit 0.42) (lit 0) (lit 0.58) (lit 1) _ He eq_refl).
Defined.
